(** * McpServerManager: the session registry of muxio-mcp

    A shallow embedding of [src/server-manager.ts].  The class keeps a
    JavaScript [Map] from server names to SDK clients and offers
    connect / disconnect / list / search operations on it.  Methods are
    embedded as computations in a small state-and-exception monad whose
    state carries the manager's fields and a trace of the calls made to
    the outside world (SDK clients, the console, [fetch]).  Everything
    the class merely consumes (the SDK client, the URL parser, the
    regular-expression engine, the process environment, [fetch]) is
    collected in a [Host] record and taken as a parameter. *)

From Stdlib Require Import Ascii String.
From stdpp Require Import base option list strings pretty gmap fin_maps.

Local Open Scope string_scope.
Local Open Scope list_scope.

(** ** JavaScript values used by the class *)

Inductive ErrorKind := KError | KTypeError | KSyntaxError.

(** A thrown value: every [catch] of the class reads [(error as Error).message]. *)
Record JsError := mkJsError { errKind : ErrorKind; message : string }.

(** [new Error(msg)] *)
Definition Error (msg : string) : JsError := mkJsError KError msg.

(** The [TypeError] thrown on reading property [prop] of [null], with the
    message Node gives it. *)
Definition nullPropertyError (prop : string) : JsError :=
  mkJsError KTypeError ("Cannot read properties of null (reading '" +:+ prop +:+ "')").

(** Truthiness of an optional string property: [undefined] and the empty
    string are falsy.  [truthyStr] returns the value when it is truthy. *)
Definition truthyStr (o : option string) : option string :=
  match o with
  | Some "" => None
  | Some s => Some s
  | None => None
  end.

Definition truthy (o : option string) : bool :=
  match truthyStr o with Some _ => true | None => false end.

(** ** Regular expressions

    A compiled pattern is represented by its search function: given the
    subject and a start index, the end index of the leftmost match that
    starts at or after the start index.  [RegExp] objects add the [global]
    flag and the mutable [lastIndex] that [RegExp.prototype.test] reads and
    writes when the flag is set (ECMAScript, RegExpBuiltinExec). *)

Record RegExp := mkRegExp {
  reSearch : string → nat → option nat;
  reGlobal : bool;
  lastIndex : nat
}.

Definition setLastIndex (r : RegExp) (i : nat) : RegExp :=
  mkRegExp (reSearch r) (reGlobal r) i.

(** [regex.test(s)]: the result and the regex object afterwards. *)
Definition regex_test (r : RegExp) (s : string) : bool * RegExp :=
  if reGlobal r then
    match reSearch r s (lastIndex r) with
    | Some e => (true, setLastIndex r e)
    | None => (false, setLastIndex r 0)
    end
  else
    match reSearch r s 0 with
    | Some _ => (true, r)
    | None => (false, r)
    end.

Fixpoint hasFlag (c : Ascii.ascii) (flags : string) : bool :=
  match flags with
  | EmptyString => false
  | String a rest => if Ascii.eqb a c then true else hasFlag c rest
  end.

(** ** Data exchanged with the SDK *)

Record URL := mkURL { href : string }.

(** Modelled from the spec: [types.ts], which declares the parameter and
    configuration types, is not among the sources.  The discriminant has
    the two variants of the specification, under the strings the class
    compares it with. *)
Inductive TransportType := stdio | http.

(** Modelled from the spec: [ConnectMcpParams | McpServerConfig] of the
    missing [types.ts]; the fields are the properties [connectToServer]
    reads, every one of them optional. *)
Record ConnectMcpParams := mkParams {
  type_ : option TransportType;
  command : option string;
  args : option (list string);
  env : option (gmap string string);
  url : option string;
  headers : option (gmap string string)
}.

Inductive Transport :=
| StdioClientTransport (cmd : string) (argv : list string) (environ : gmap string string)
| StreamableHTTPClientTransport (target : URL) (requestInit : option (gmap string string)).

(** An SDK client: the implementation info given to [new Client] and the
    transport it has been connected on, if any. *)
Record Client := mkClient {
  clientName : string;
  clientVersion : string;
  clientTransport : option Transport
}.

Module Tool.
(** A tool as reported by a server; the schema is passed through. *)
Record t := mk { name : option string; description : option string; inputSchema : string }.
End Tool.

Module Summary.
(** The object literal [{ name: tool.name, description: tool.description }]. *)
Record t := mk { name : option string; description : option string }.
End Summary.

(** The answer of [client.listTools()]; [tools = None] stands for a
    [tools] property that is missing, falsy or not an array. *)
Record ToolsResponse := mkToolsResponse { tools : option (list Tool.t) }.

Inductive SearchIn := SearchName | SearchDescription | SearchBoth.

(** An element of a per-server array built by [findTools]. *)
Inductive SearchEntry :=
| Matched (s : Summary.t)
| ErrorMarker (error : string).

(** Modelled from the spec: [McpConfig] of the missing [types.ts]; the
    entries of [mcpServers] are listed in the order of [Object.entries]. *)
Record McpConfig := mkConfig { mcpServers : option (list (string * ConnectMcpParams)) }.

(** What the class reads of a [fetch] response.  [json] is the outcome
    of [response.json()]: a rejection, or the parsed body, where [None] is
    a body that parses to [null] and [Some config] any other value, seen
    through the one property the class reads of it ([mcpServers] is
    [None] when the value has no such property or a falsy one, as for a
    number, a string or an array). *)
Record Response := mkResponse {
  ok : bool;
  status : nat;
  json : JsError + option McpConfig
}.

(** ** The outside world *)

Record Host := mkHost {
  (** [client.connect(transport)]: the connected client, or the thrown error *)
  client_connect : Client → Transport → JsError + Client;
  client_listTools : Client → JsError + ToolsResponse;
  client_callTool : Client → string → string → JsError + string;
  (** [client.close()]: [None] when it resolves *)
  client_close : Client → option JsError;
  (** [new URL(s)] *)
  URL_new : string → JsError + URL;
  (** compilation of a pattern, with or without the [i] flag *)
  RegExp_compile : string → bool → JsError + (string → nat → option nat);
  process_env : gmap string string;
  fetch : string → JsError + Response
}.

Inductive Event :=
| EvConnect (c : Client) (t : Transport)
| EvListTools (c : Client)
| EvCallTool (c : Client) (toolName : string) (arguments : string)
| EvClose (c : Client)
| EvFetch (target : string)
| EvConsoleError (msg : string)
| EvConsoleWarn (msg : string).

(** ** The JavaScript [Map] holding the clients

    Keys are kept in insertion order; [set] on a present key keeps its
    position, [delete] removes the entry. *)
Module JsMap.
Section Ops.
Context {V : Type}.

Fixpoint get (k : string) (m : list (string * V)) : option V :=
  match m with
  | [] => None
  | (k', v) :: rest => if String.eqb k' k then Some v else get k rest
  end.

Definition has (k : string) (m : list (string * V)) : bool :=
  match get k m with Some _ => true | None => false end.

Fixpoint set (k : string) (v : V) (m : list (string * V)) : list (string * V) :=
  match m with
  | [] => [(k, v)]
  | (k', v') :: rest =>
      if String.eqb k' k then (k', v) :: rest else (k', v') :: set k v rest
  end.

Fixpoint delete (k : string) (m : list (string * V)) : list (string * V) :=
  match m with
  | [] => []
  | (k', v') :: rest =>
      if String.eqb k' k then rest else (k', v') :: delete k rest
  end.

Definition keys (m : list (string * V)) : list string := m.*1.

(** what a [Map] guarantees: no key occurs twice *)
Definition wf (m : list (string * V)) : Prop := NoDup (keys m).
End Ops.
End JsMap.

(** ** Plain objects used as string-keyed tables

    An object created by a literal inherits from [Object.prototype], whose
    only accessor property is [__proto__].  [own] holds the object's own
    properties, [proto] the object its prototype has been replaced with,
    if it has been.  An assignment [o[k] = v] writes an own property,
    except under the key [__proto__] when the object has no own property
    of that name: the inherited setter then runs, which replaces the
    prototype when the value is an object and does nothing when it is a
    primitive. *)
Module JsObject.

Record t (V : Type) := mk { own : gmap string V; proto : option V }.
Arguments mk {V} own proto.
Arguments own {V} _.
Arguments proto {V} _.

(** [{}] *)
Definition empty {V} : t V := mk ∅ None.

(** [o[k] = v]; [valueIsObject] says whether [v] is an object (an array
    is one, a string is not) *)
Definition set {V} (valueIsObject : bool) (k : string) (v : V) (o : t V) : t V :=
  if String.eqb k "__proto__" then
    match own o !! k with
    | Some _ => mk (<[k := v]> (own o)) (proto o)
    | None => if valueIsObject then mk (own o) (Some v) else o
    end
  else mk (<[k := v]> (own o)) (proto o).

(** [{ ...source }]: the spread defines own properties, no setter runs *)
Definition spread {V} (source : gmap string V) : t V := mk source None.

(** [Object.assign(target, source)]: one assignment per own property of
    the source *)
Definition assign {V} (valueIsObject : bool) (target : t V) (source : gmap string V) : t V :=
  map_fold (set valueIsObject) target source.

End JsObject.

#[global] Instance JsObject_empty {V} : Empty (JsObject.t V) := JsObject.empty.

(** ** Manager state and the monad of its methods *)

Record State := mkState {
  clients : list (string * Client);
  blueprintId : option string;
  trace : list Event
}.

Inductive Completion (A : Type) :=
| Normal (a : A)
| Throw (e : JsError).
Arguments Normal {A} a.
Arguments Throw {A} e.

Definition M (A : Type) : Type := State → Completion A * State.

#[global] Instance M_ret : MRet M := λ A a s, (Normal a, s).

#[global] Instance M_bind : MBind M := λ A B k m s,
  match m s with
  | (Normal a, s') => k a s'
  | (Throw e, s') => (Throw e, s')
  end.

Definition throw {A} (e : JsError) : M A := λ s, (Throw e, s).

(** [try { m } catch (error) { h error }] *)
Definition try_catch {A} (m : M A) (h : JsError → M A) : M A := λ s,
  match m s with
  | (Normal a, s') => (Normal a, s')
  | (Throw e, s') => h e s'
  end.

Definition getClients : M (list (string * Client)) := λ s, (Normal (clients s), s).

Definition putClients (cl : list (string * Client)) : M unit := λ s,
  (Normal tt, mkState cl (blueprintId s) (trace s)).

Definition getBlueprintId : M (option string) := λ s, (Normal (blueprintId s), s).

Definition emit (e : Event) : M unit := λ s,
  (Normal tt, mkState (clients s) (blueprintId s) (trace s ++ [e])).

(** an awaited outside call: it is recorded, then resolves or rejects *)
Definition await {A} (e : Event) (r : JsError + A) : M A :=
  _ ← emit e;
  match r with
  | inl err => throw err
  | inr a => mret a
  end.

Definition liftThrow {A} (r : JsError + A) : M A :=
  match r with
  | inl err => throw err
  | inr a => mret a
  end.

(** ** The methods of [McpServerManager] *)

Section Methods.
Context (host : Host).

(** [new RegExp(pattern, flags)] *)
Definition newRegExp (pattern flags : string) : JsError + RegExp :=
  match RegExp_compile host pattern (hasFlag "i"%char flags) with
  | inl e => inl e
  | inr search => inr (mkRegExp search (hasFlag "g"%char flags) 0)
  end.

Definition fetchConfigFromApi (blueprintId : string) : M McpConfig :=
  try_catch
    (let url := "https://muxio.vercel.app/api/blueprint-servers?blueprint_id=" +:+ blueprintId in
     response ← await (EvFetch url) (fetch host url);
     if negb (ok response) then
       throw (Error ("HTTP error! status: " +:+ pretty (status response)))
     else
       body ← liftThrow (json response);
       match body with
       | None => throw (nullPropertyError "mcpServers")
       | Some config =>
           match mcpServers config with
           | None => throw (Error "Invalid configuration format: missing mcpServers")
           | Some _ => mret config
           end
       end)
    (λ error,
       _ ← emit (EvConsoleError ("Failed to fetch configuration from API: " +:+ message error));
       throw (Error ("Failed to fetch configuration for blueprint '" +:+ blueprintId +:+ "': "
                     +:+ message error))).

(** [params.type || (params.command ? "stdio" : "http")] *)
Definition transportTypeOf (params : ConnectMcpParams) : TransportType :=
  match type_ params with
  | Some t => t
  | None => if truthy (command params) then stdio else http
  end.

(** The first half of [connectToServer]: building the transport object.
    Nothing here touches the manager or the outside world except for the
    URL parser and the ambient environment. *)
Definition makeTransport (serverName : string) (params : ConnectMcpParams)
  : JsError + Transport :=
  match transportTypeOf params with
  | http =>
      match truthyStr (url params) with
      | None => inl (Error ("HTTP server '" +:+ serverName +:+ "' requires a URL."))
      | Some u =>
          match URL_new host u with
          | inl e => inl e
          | inr url => inr (StreamableHTTPClientTransport url (headers params))
          end
      end
  | stdio =>
      match truthyStr (command params) with
      | None => inl (Error ("Stdio server '" +:+ serverName +:+ "' requires a command."))
      | Some cmd =>
          let params_env := env params in
          let env := JsObject.spread (process_env host) in
          let env :=
            match params_env with
            | Some overlay => JsObject.assign false env overlay
            | None => env
            end in
          inr (StdioClientTransport cmd (default [] (args params)) (JsObject.own env))
      end
  end.

Definition connectToServer (serverName : string) (params : ConnectMcpParams) : M unit :=
  cl ← getClients;
  if JsMap.has serverName cl then
    throw (Error ("Already connected to server '" +:+ serverName +:+ "'."))
  else
    transport ← liftThrow (makeTransport serverName params);
    let client := mkClient ("mcp-client-" +:+ serverName) "1.0.0" None in
    try_catch
      (connected ← await (EvConnect client transport) (client_connect host client transport);
       cl' ← getClients;
       putClients (JsMap.set serverName connected cl'))
      (λ error,
         _ ← emit (EvConsoleError ("Failed to connect to server '" +:+ serverName +:+ "': "
                                   +:+ message error));
         throw (Error ("Failed to connect to server '" +:+ serverName +:+ "': "
                       +:+ message error))).

(** The [for ... of serverEntries] loop of [loadFromBlueprint]. *)
Fixpoint connectEntries (serverEntries : list (string * ConnectMcpParams)) : M unit :=
  match serverEntries with
  | [] => mret tt
  | (serverName, serverConfig) :: rest =>
      cl ← getClients;
      if JsMap.has serverName cl then connectEntries rest
      else
        _ ← try_catch (connectToServer serverName serverConfig)
              (λ error,
                 emit (EvConsoleError ("Failed to connect to server '" +:+ serverName
                                       +:+ "' from blueprint: " +:+ message error)));
        connectEntries rest
  end.

(** [a || b] on optional strings *)
Definition orElse (a b : option string) : option string :=
  match truthyStr a with
  | Some x => Some x
  | None => b
  end.

Definition loadFromBlueprint (blueprintId : option string) : M unit :=
  this_blueprintId ← getBlueprintId;
  match truthyStr (orElse blueprintId this_blueprintId) with
  | None => throw (Error "Blueprint ID not specified.")
  | Some id =>
      config ← fetchConfigFromApi id;
      match mcpServers config with
      | None | Some [] => emit (EvConsoleWarn "No server information in blueprint configuration.")
      | Some serverEntries => connectEntries serverEntries
      end
  end.

Definition getClient (serverName : string) : M Client :=
  cl ← getClients;
  match JsMap.get serverName cl with
  | None => throw (Error ("Not connected to server '" +:+ serverName +:+ "'."))
  | Some client => mret client
  end.

Definition listTools (serverName : string) : M ToolsResponse :=
  client ← getClient serverName;
  await (EvListTools client) (client_listTools host client).

Definition getTool (serverName toolName : string) : M Tool.t :=
  client ← getClient serverName;
  toolsResponse ← await (EvListTools client) (client_listTools host client);
  match tools toolsResponse with
  | None => throw (Error ("No tools found on server '" +:+ serverName +:+ "'"))
  | Some ts =>
      match List.find (λ t, bool_decide (Tool.name t = Some toolName)) ts with
      | None => throw (Error ("Tool '" +:+ toolName +:+ "' not found on server '"
                              +:+ serverName +:+ "'"))
      | Some tool => mret tool
      end
  end.

(** [tool => ({ name: tool.name, description: tool.description })] *)
Definition summarize (tool : Tool.t) : Summary.t :=
  Summary.mk (Tool.name tool) (Tool.description tool).

(** Returns the [tools] property of the object the method resolves to. *)
Definition listToolsInServer (serverName : string) : M (list Summary.t) :=
  client ← getClient serverName;
  toolsResponse ← await (EvListTools client) (client_listTools host client);
  match tools toolsResponse with
  | None => mret []
  | Some ts => mret (summarize <$> ts)
  end.

(** The callback given to [filter], shared by [findToolsInServer] and
    [findTools]; both [const]s are evaluated, in this order, on the one
    regex object. *)
Definition matchTool (searchIn : SearchIn) (tool : Tool.t) (regex : RegExp) : bool * RegExp :=
  let '(nameMatch, regex1) :=
    match searchIn, truthyStr (Tool.name tool) with
    | SearchDescription, _ => (false, regex)
    | _, None => (false, regex)
    | _, Some n => regex_test regex n
    end in
  let '(descriptionMatch, regex2) :=
    match searchIn, truthyStr (Tool.description tool) with
    | SearchName, _ => (false, regex1)
    | _, None => (false, regex1)
    | _, Some d => regex_test regex1 d
    end in
  (nameMatch || descriptionMatch, regex2).

(** [tools.filter(callback)], visiting the array from left to right. *)
Fixpoint filterTools (searchIn : SearchIn) (regex : RegExp) (ts : list Tool.t)
  : list Tool.t * RegExp :=
  match ts with
  | [] => ([], regex)
  | tool :: rest =>
      let '(keep, regex') := matchTool searchIn tool regex in
      let '(kept, regex'') := filterTools searchIn regex' rest in
      (if keep then tool :: kept else kept, regex'')
  end.

Definition findToolsInServer (serverName pattern : string)
    (searchIn : option SearchIn) (caseSensitive : option bool) : M (list Summary.t) :=
  let searchIn := default SearchBoth searchIn in
  let caseSensitive := default false caseSensitive in
  client ← getClient serverName;
  toolsResponse ← await (EvListTools client) (client_listTools host client);
  match tools toolsResponse with
  | None => mret []
  | Some ts =>
      let flags := if caseSensitive then "g" else "gi" in
      regex ← liftThrow (newRegExp pattern flags);
      let matchedTools := (filterTools searchIn regex ts).1 in
      mret (summarize <$> matchedTools)
  end.

Definition getConnectedServers : M (list string) :=
  cl ← getClients;
  mret (JsMap.keys cl).

Definition listServers : M (list string) := getConnectedServers.

Definition callTool (serverName toolName args : string) : M string :=
  client ← getClient serverName;
  await (EvCallTool client toolName args) (client_callTool host client toolName args).

(** The [for ... of servers] loop of [findTools]. *)
Fixpoint searchServers (searchIn : SearchIn) (servers : list string) (regex : RegExp)
    (results : JsObject.t (list SearchEntry)) : M (JsObject.t (list SearchEntry)) :=
  match servers with
  | [] => mret results
  | serverName :: rest =>
      '(results', regex') ← try_catch
        (toolsResponse ← listTools serverName;
         match tools toolsResponse with
         | Some ts =>
             let '(matched, regex') := filterTools searchIn regex ts in
             let matchedTools := (Matched ∘ summarize) <$> matched in
             if (0 <? length matchedTools)%nat then
               mret (JsObject.set true serverName matchedTools results, regex')
             else mret (results, regex')
         | None => mret (results, regex)
         end)
        (λ error,
           mret (JsObject.set true serverName
                   [ErrorMarker ("Failed to search tools: " +:+ message error)] results,
                 regex));
      searchServers searchIn rest regex' results'
  end.

Definition findTools (pattern : string) (searchIn : option SearchIn)
    (caseSensitive : option bool) : M (JsObject.t (list SearchEntry)) :=
  let searchIn := default SearchBoth searchIn in
  let caseSensitive := default false caseSensitive in
  servers ← getConnectedServers;
  if (length servers =? 0)%nat then mret ∅
  else
    regex ← try_catch (liftThrow (newRegExp pattern (if caseSensitive then "" else "i")))
              (λ error, throw (Error ("Invalid regex pattern: " +:+ message error)));
    searchServers searchIn servers regex ∅.

Definition disconnectServer (serverName : string) : M unit :=
  cl ← getClients;
  match JsMap.get serverName cl with
  | None => throw (Error ("Not connected to server '" +:+ serverName +:+ "'."))
  | Some client =>
      try_catch
        (_ ← await (EvClose client)
               (match client_close host client with
                | Some e => inl e
                | None => inr tt
                end);
         cl' ← getClients;
         putClients (JsMap.delete serverName cl'))
        (λ error,
           _ ← emit (EvConsoleError ("Failed to disconnect from server '" +:+ serverName
                                     +:+ "': " +:+ message error));
           throw (Error ("Failed to disconnect from server '" +:+ serverName +:+ "': "
                         +:+ message error)))
  end.

(** The [for ... of serverNames] loop of [disconnectAll]. *)
Fixpoint disconnectEach (serverNames : list string) : M unit :=
  match serverNames with
  | [] => mret tt
  | serverName :: rest =>
      _ ← disconnectServer serverName;
      disconnectEach rest
  end.

Definition disconnectAll : M unit :=
  serverNames ← getConnectedServers;
  disconnectEach serverNames.

End Methods.

(** ** A concrete world for running the methods

    [Fragment] is a regular-expression engine for the patterns
    [^?[A-Za-z0-9 ]*] (a literal, possibly anchored at the start); it
    answers as the ECMAScript engine does on these patterns and on the
    malformed pattern made of one opening parenthesis, and rejects every
    other pattern as unsupported. *)
Module Fragment.

Definition lowerChar (c : ascii) : ascii :=
  let n := nat_of_ascii c in
  if (65 <=? n)%nat && (n <=? 90)%nat then ascii_of_nat (n + 32) else c.

Fixpoint lower (s : string) : string :=
  match s with
  | EmptyString => EmptyString
  | String c rest => String (lowerChar c) (lower rest)
  end.

Definition isLiteralChar (c : ascii) : bool :=
  let n := nat_of_ascii c in
  ((48 <=? n)%nat && (n <=? 57)%nat) || ((65 <=? n)%nat && (n <=? 90)%nat)
  || ((97 <=? n)%nat && (n <=? 122)%nat) || (n =? 32)%nat.

Fixpoint allLiteral (s : string) : bool :=
  match s with
  | EmptyString => true
  | String c rest => isLiteralChar c && allLiteral rest
  end.

(** leftmost occurrence of [lit] in [subject] at or after [skip] characters;
    [pos] is the index of the first character of [subject] *)
Fixpoint searchFrom (lit subject : string) (skip pos : nat) {struct subject} : option nat :=
  match skip, subject with
  | S k, String _ rest => searchFrom lit rest k (S pos)
  | S _, EmptyString => None
  | 0, String _ rest =>
      if String.prefix lit subject then Some (pos + String.length lit)
      else searchFrom lit rest 0 (S pos)
  | 0, EmptyString => if String.prefix lit subject then Some pos else None
  end.

Definition anchoredAt0 (lit subject : string) (start : nat) : option nat :=
  match start with
  | 0 => if String.prefix lit subject then Some (String.length lit) else None
  | S _ => None
  end.

Definition compile (pattern : string) (ignoreCase : bool)
  : JsError + (string → nat → option nat) :=
  let fold := if ignoreCase then lower else id in
  match pattern with
  | String "^" lit =>
      if allLiteral lit then inr (λ subject start, anchoredAt0 (fold lit) (fold subject) start)
      else inl (mkJsError KSyntaxError
                  ("Invalid regular expression: /" +:+ pattern +:+ "/: unsupported"))
  | "(" => inl (mkJsError KSyntaxError "Invalid regular expression: /(/: Unterminated group")
  | lit =>
      if allLiteral lit then inr (λ subject start, searchFrom (fold lit) (fold subject) start 0)
      else inl (mkJsError KSyntaxError
                  ("Invalid regular expression: /" +:+ pattern +:+ "/: unsupported"))
  end.

(** the search function of a pattern of the fragment *)
Definition searchOf (pattern : string) (ignoreCase : bool) : string → nat → option nat :=
  match compile pattern ignoreCase with
  | inr search => search
  | inl _ => λ _ _, None
  end.

End Fragment.

Module Demo.

Definition readFile : Tool.t := Tool.mk (Some "readFile") (Some "Read a file") "{}".
Definition readDir : Tool.t := Tool.mk (Some "readDir") (Some "List a directory") "{}".
Definition writeFile : Tool.t := Tool.mk (Some "writeFile") None "{}".
Definition listDir : Tool.t := Tool.mk (Some "listDir") (Some "List a directory") "{}".

(** Servers are told apart by the name their client was created with:
    [fs] and [files] list tools, [broken] fails to list, [odd] answers
    without a tools array, [stuck] (and [broken]) refuse to close; a
    process whose command is [missing-binary] cannot be started. *)
Definition host : Host := {|
  client_connect c t :=
    match t with
    | StdioClientTransport "missing-binary" _ _ => inl (Error "spawn missing-binary ENOENT")
    | _ => inr (mkClient (clientName c) (clientVersion c) (Some t))
    end;
  client_listTools c :=
    match clientName c with
    | "mcp-client-fs" => inr (mkToolsResponse (Some [readFile; readDir; writeFile]))
    | "mcp-client-files" => inr (mkToolsResponse (Some [readFile; writeFile; listDir]))
    | "mcp-client-broken" => inl (Error "Connection closed")
    | "mcp-client-odd" => inr (mkToolsResponse None)
    | _ => inr (mkToolsResponse (Some []))
    end;
  client_callTool c toolName args := inr "{}";
  client_close c :=
    match clientName c with
    | "mcp-client-stuck" | "mcp-client-broken" => Some (Error "close timed out")
    | _ => None
    end;
  URL_new s :=
    if String.prefix "http://" s || String.prefix "https://" s then inr (mkURL s)
    else inl (mkJsError KTypeError "Invalid URL");
  RegExp_compile := Fragment.compile;
  process_env := {[ "PATH" := "/usr/bin" ]};
  fetch target :=
    match target with
    | "https://muxio.vercel.app/api/blueprint-servers?blueprint_id=bp1" =>
        inr (mkResponse true 200 (inr (Some (mkConfig (Some
          [("fs", mkParams None (Some "npx") (Some ["fs-server"]) None None None);
           ("ghost", mkParams None (Some "missing-binary") None None None None);
           ("web", mkParams None None None None (Some "https://example.org/mcp") None)])))))
    | "https://muxio.vercel.app/api/blueprint-servers?blueprint_id=null" =>
        inr (mkResponse true 200 (inr None))
    | "https://muxio.vercel.app/api/blueprint-servers?blueprint_id=gone" =>
        inr (mkResponse false 404 (inl (Error "Unexpected end of JSON input")))
    | _ => inl (mkJsError KTypeError "fetch failed")
    end
|}.

Definition stdioParams (cmd : string) : ConnectMcpParams :=
  mkParams None (Some cmd) None None None None.

(** the client that [connectToServer name (stdioParams cmd)] registers *)
Definition client (name cmd : string) : Client :=
  mkClient ("mcp-client-" +:+ name) "1.0.0"
    (Some (StdioClientTransport cmd [] (process_env host))).

Definition stateOf (cl : list (string * Client)) : State := mkState cl None [].

Definition fsOnly : State := stateOf [("fs", client "fs" "npx")].

Definition stuckThenFs : State :=
  stateOf [("stuck", client "stuck" "npx"); ("fs", client "fs" "npx")].

Definition fsThenStuckThenFiles : State :=
  stateOf [("fs", client "fs" "npx"); ("stuck", client "stuck" "npx");
           ("files", client "files" "npx")].

Definition mixed : State :=
  stateOf [("fs", client "fs" "npx"); ("broken", client "broken" "npx");
           ("odd", client "odd" "npx"); ("idle", client "idle" "npx")].

Definition webParams : ConnectMcpParams :=
  mkParams None None None None (Some "https://example.org/mcp") None.

Definition webTransport : Transport :=
  StreamableHTTPClientTransport (mkURL "https://example.org/mcp") None.

(** the client that [connectToServer "web" webParams] registers *)
Definition webClient : Client := mkClient "mcp-client-web" "1.0.0" (Some webTransport).

(** the servers of blueprint [bp1], as [host] serves them *)
Definition bp1Entries : list (string * ConnectMcpParams) :=
  [("fs", mkParams None (Some "npx") (Some ["fs-server"]) None None None);
   ("ghost", mkParams None (Some "missing-binary") None None None None);
   ("web", webParams)].

Definition bp1Config : McpConfig := mkConfig (Some bp1Entries).

(** parameters of a spawned process whose environment redefines [PATH]
    and has a variable named [__proto__] *)
Definition overlayParams : ConnectMcpParams :=
  mkParams None (Some "npx") None
    (Some (<["__proto__" := "polluted"]> {[ "PATH" := "/opt/bin" ]})) None None.

End Demo.

(** The world of [Demo] with one more server, connected under the name
    [__proto__], whose listing is [readFile]. *)
Module ProtoDemo.

Definition host : Host := {|
  client_connect := client_connect Demo.host;
  client_listTools c :=
    if String.eqb (clientName c) "mcp-client-__proto__"
    then inr (mkToolsResponse (Some [Demo.readFile]))
    else client_listTools Demo.host c;
  client_callTool := client_callTool Demo.host;
  client_close := client_close Demo.host;
  URL_new := URL_new Demo.host;
  RegExp_compile := RegExp_compile Demo.host;
  process_env := process_env Demo.host;
  fetch := fetch Demo.host
|}.


End ProtoDemo.

(** ** Names for the thrown errors *)

(** The errors the class throws, named as in the specification. *)
Definition AlreadyConnected (n : string) : JsError :=
  Error ("Already connected to server '" +:+ n +:+ "'.").
Definition NotConnected (n : string) : JsError :=
  Error ("Not connected to server '" +:+ n +:+ "'.").
Definition ConnectionFailed (n : string) (cause : JsError) : JsError :=
  Error ("Failed to connect to server '" +:+ n +:+ "': " +:+ message cause).
Definition DisconnectFailed (n : string) (cause : JsError) : JsError :=
  Error ("Failed to disconnect from server '" +:+ n +:+ "': " +:+ message cause).
Definition InvalidPattern (cause : JsError) : JsError :=
  Error ("Invalid regex pattern: " +:+ message cause).

(** the client object [connectToServer] creates before connecting *)
Definition freshClient (n : string) : Client := mkClient ("mcp-client-" +:+ n) "1.0.0" None.

(** The reading of C1 as the specification states it: a failed close
    still removes the entry. *)
Definition close_failure_removes_entry (host : Host) (s : State) (n : string) : Prop :=
  ∀ c e, JsMap.get n (clients s) = Some c → client_close host c = Some e →
    ∃ s', disconnectServer host n s = (Throw (DisconnectFailed n e), s')
          ∧ n ∉ JsMap.keys (clients s').

(** The reading of C2 as the specification states it: whatever happens,
    every registered name whose close does not fail is gone afterwards. *)
Definition teardown_reaches_every_name (host : Host) (s : State) : Prop :=
  ∀ n c, JsMap.get n (clients s) = Some c → client_close host c = None →
    n ∉ JsMap.keys (clients (disconnectAll host s).2).

Definition closeSucceeds (host : Host) (entry : string * Client) : Prop :=
  client_close host entry.2 = None.

(** ** Searching, without the regex object

    [toolMatches] is the filter callback read as a function of the tool
    alone: guards by truthiness as in the source, the pattern searched
    from the start of the string. *)
Definition found (search : string → nat → option nat) (subject : string) : bool :=
  match search subject 0 with Some _ => true | None => false end.

Definition toolMatches (searchIn : SearchIn) (search : string → nat → option nat)
    (tool : Tool.t) : bool :=
  match searchIn, truthyStr (Tool.name tool) with
  | SearchDescription, _ => false
  | _, None => false
  | _, Some n => found search n
  end
  || match searchIn, truthyStr (Tool.description tool) with
     | SearchName, _ => false
     | _, None => false
     | _, Some d => found search d
     end.

(** What one server contributes to the mapping built by [findTools]. *)
Definition searchOutcome (host : Host) (searchIn : SearchIn)
    (search : string → nat → option nat) (c : Client) : option (list SearchEntry) :=
  match client_listTools host c with
  | inl e => Some [ErrorMarker ("Failed to search tools: " +:+ message e)]
  | inr resp =>
      match tools resp with
      | None => None
      | Some ts =>
          match List.filter (toolMatches searchIn search) ts with
          | [] => None
          | m => Some ((Matched ∘ summarize) <$> m)
          end
      end
  end.

Definition addOutcome (host : Host) (searchIn : SearchIn)
    (search : string → nat → option nat)
    (results : JsObject.t (list SearchEntry)) (entry : string * Client)
  : JsObject.t (list SearchEntry) :=
  match searchOutcome host searchIn search entry.2 with
  | Some v => JsObject.set true entry.1 v results
  | None => results
  end.

(** The matching rule in the words of the specification: per descriptor,
    (scope allows names, the name is present, the pattern matches it) or
    the same for the description. *)
Definition descriptorMatches (searchIn : SearchIn) (search : string → nat → option nat)
    (tool : Tool.t) : bool :=
  (match searchIn with SearchDescription => false | _ => true end
   && match Tool.name tool with Some n => found search n | None => false end)
  || (match searchIn with SearchName => false | _ => true end
      && match Tool.description tool with Some d => found search d | None => false end).

(** The reading of C3 as the specification states it: a pattern that does
    not compile makes both forms of search fail, in every state, before
    any outside call. *)
Definition invalid_pattern_rejected_everywhere (host : Host) (pattern : string) : Prop :=
  (∀ ignoreCase, ∃ e, RegExp_compile host pattern ignoreCase = inl e) →
  (∀ searchIn caseSensitive s,
     ∃ e s', findTools host pattern searchIn caseSensitive s = (Throw e, s')
             ∧ trace s' = trace s)
  ∧ (∀ n searchIn caseSensitive s,
       JsMap.has n (clients s) = true →
       ∃ e s', findToolsInServer host n pattern searchIn caseSensitive s = (Throw e, s')
               ∧ trace s' = trace s).

(** The state in which the loop of [loadFromBlueprint] goes on after
    trying an entry whose name was free. *)
Definition afterAttempt (host : Host) (serverName : string) (serverConfig : ConnectMcpParams)
    (s : State) : State :=
  match connectToServer host serverName serverConfig s with
  | (Normal _, s1) => s1
  | (Throw error, s1) =>
      mkState (clients s1) (blueprintId s1)
        (trace s1 ++ [EvConsoleError ("Failed to connect to server '" +:+ serverName
                                      +:+ "' from blueprint: " +:+ message error)])
  end.

(** ** Start-up: finding the blueprint id and constructing the manager *)

(** [l.findIndex(p)], with [None] for the -1 of JavaScript *)
Fixpoint findIndex (p : string → bool) (l : list string) : option nat :=
  match l with
  | [] => None
  | x :: rest => if p x then Some 0 else S <$> findIndex p rest
  end.

(** [findBlueprintId()]; the environment is the host's, the argument
    vector [process.argv] is passed in. *)
Definition findBlueprintId (host : Host) (argv : list string) : option string :=
  match truthyStr (process_env host !! "MCP_BLUEPRINT_ID") with
  | Some v => Some v
  | None =>
      match findIndex (String.eqb "--blueprint-id") argv with
      | Some blueprintArgIndex =>
          if (blueprintArgIndex <? length argv - 1)%nat then argv !! (blueprintArgIndex + 1)
          else None
      | None => None
      end
  end.

(** [new McpServerManager(options)]: the two optional properties of
    [options] are given separately ([options] itself missing is both
    missing).  The load started by [autoLoad] is not awaited by the
    constructor; the state returned here is the one reached when that
    promise, with its [catch] handler, has settled and no other method has
    run in between. *)
Definition newManager (host : Host) (argv : list string)
    (optBlueprintId : option string) (autoLoad : option bool) : State :=
  let blueprintId := orElse optBlueprintId (findBlueprintId host argv) in
  let this := mkState [] blueprintId [] in
  if default false autoLoad && truthy blueprintId then
    (try_catch (loadFromBlueprint host blueprintId)
       (λ error,
          emit (EvConsoleError ("Failed to load servers from blueprint: " +:+ message error)))
       this).2
  else this.

(** Whether a connect under a free name would go through: it depends on
    the parameters and the host only. *)
Definition connectable (host : Host) (serverName : string) (params : ConnectMcpParams) : bool :=
  match makeTransport host serverName params with
  | inl _ => false
  | inr t =>
      match client_connect host (freshClient serverName) t with
      | inl _ => false
      | inr _ => true
      end
  end.

(** A search function finds from the start whatever it finds from a
    later index: true of any engine, where starting later only skips
    candidate positions. *)
Definition searchMonotone (search : string → nat → option nat) : Prop :=
  ∀ subject i e, search subject i = Some e → ∃ e', search subject 0 = Some e'.

(** A computation that leaves the manager's own fields alone; it may
    still call out and extend the trace. *)
Definition readOnly {A} (m : M A) : Prop :=
  ∀ s, clients (m s).2 = clients s ∧ blueprintId (m s).2 = blueprintId s.

(** The two halves of the filter callback: one guarded test on the regex
    object, and its stateless counterpart. *)
Definition guardedTest (allowed : bool) (field : option string) (regex : RegExp)
  : bool * RegExp :=
  if allowed then
    match truthyStr field with
    | Some x => regex_test regex x
    | None => (false, regex)
    end
  else (false, regex).

Definition guardedFound (allowed : bool) (field : option string)
    (search : string → nat → option nat) : bool :=
  if allowed then
    match truthyStr field with
    | Some x => found search x
    | None => false
    end
  else false.

Definition namesSearched (searchIn : SearchIn) : bool :=
  match searchIn with SearchDescription => false | _ => true end.

Definition descriptionsSearched (searchIn : SearchIn) : bool :=
  match searchIn with SearchName => false | _ => true end.

(** the address [fetchConfigFromApi] requests for a blueprint id *)
Definition blueprintUrl (blueprintId : string) : string :=
  "https://muxio.vercel.app/api/blueprint-servers?blueprint_id=" +:+ blueprintId.

(** * Properties *)

(** ** Unfolding the monad *)

Ltac munfold :=
  unfold await, liftThrow, emit, getClients, putClients, getBlueprintId,
    try_catch, throw; unfold mbind, M_bind, mret, M_ret.

Ltac msimpl := munfold; cbn [fst snd clients blueprintId trace].

(** ** Connecting *)

Section Connect.
Context (host : Host).

Lemma connectToServer_present n p s :
  JsMap.has n (clients s) = true →
  connectToServer host n p s = (Throw (AlreadyConnected n), s).
Proof.
  intros Hhas. unfold connectToServer. msimpl. by rewrite Hhas.
Qed.

Lemma connectToServer_absent n p s :
  JsMap.has n (clients s) = false →
  connectToServer host n p s =
    match makeTransport host n p with
    | inl e => (Throw e, s)
    | inr t =>
        match client_connect host (freshClient n) t with
        | inl e =>
            (Throw (ConnectionFailed n e),
             mkState (clients s) (blueprintId s)
               ((trace s ++ [EvConnect (freshClient n) t])
                  ++ [EvConsoleError ("Failed to connect to server '" +:+ n +:+ "': "
                                      +:+ message e)]))
        | inr c =>
            (Normal tt,
             mkState (JsMap.set n c (clients s)) (blueprintId s)
               (trace s ++ [EvConnect (freshClient n) t]))
        end
    end.
Proof.
  intros Hhas. unfold connectToServer. msimpl. rewrite Hhas.
  destruct (makeTransport host n p) as [e|t]; [done|].
  fold (freshClient n).
  by destruct (client_connect host (freshClient n) t).
Qed.

End Connect.

Section ConnectClaims.
Context (host : Host).

(** C7: connecting under a name that is already registered always fails
    with AlreadyConnected; the registry (in particular the session stored
    for that name) and the trace of outside calls are exactly as before,
    so no transport was opened. *)
Theorem connect_already_connected n p s :
  JsMap.has n (clients s) = true →
  ∃ s', connectToServer host n p s = (Throw (AlreadyConnected n), s')
        ∧ clients s' = clients s
        ∧ JsMap.get n (clients s') = JsMap.get n (clients s)
        ∧ trace s' = trace s.
Proof.
  intros Hhas. exists s. by rewrite connectToServer_present.
Qed.

(** C6: when the name is free, the parameters yield a transport and the
    SDK fails to open the session on it, connect fails with
    ConnectionFailed carrying the cause; the registry is the one before
    the call, with no entry for the name. *)
Theorem connect_transport_failure n p s t e :
  JsMap.has n (clients s) = false →
  makeTransport host n p = inr t →
  client_connect host (freshClient n) t = inl e →
  ∃ s', connectToServer host n p s = (Throw (ConnectionFailed n e), s')
        ∧ clients s' = clients s
        ∧ JsMap.get n (clients s') = None
        ∧ ∀ m, JsMap.get m (clients s') = JsMap.get m (clients s).
Proof.
  intros Hhas Ht He. rewrite (connectToServer_absent host n p s Hhas), Ht, He.
  eexists. split; [reflexivity|]. cbn.
  split; [done|]. split; [|done].
  unfold JsMap.has in Hhas. by destruct (JsMap.get n (clients s)).
Qed.


End ConnectClaims.

(** ** Disconnecting *)

Section Disconnect.
Context (host : Host).

Lemma get_head {V} k (v : V) rest : JsMap.get k ((k, v) :: rest) = Some v.
Proof. cbn. by rewrite String.eqb_refl. Qed.

Lemma delete_head {V} k (v : V) rest : JsMap.delete k ((k, v) :: rest) = rest.
Proof. cbn. by rewrite String.eqb_refl. Qed.

Lemma get_Some_keys {V} k (v : V) m : JsMap.get k m = Some v → k ∈ JsMap.keys m.
Proof.
  induction m as [|[k' v'] m IH]; cbn; [done|].
  destruct (String.eqb k' k) eqn:E.
  - apply String.eqb_eq in E as ->. intros _. apply list_elem_of_here.
  - intros H. apply list_elem_of_further. by apply IH.
Qed.

Lemma disconnectServer_absent n s :
  JsMap.get n (clients s) = None →
  disconnectServer host n s = (Throw (NotConnected n), s).
Proof. intros H. unfold disconnectServer. msimpl. by rewrite H. Qed.

Lemma disconnectServer_present n c s :
  JsMap.get n (clients s) = Some c →
  disconnectServer host n s =
    match client_close host c with
    | None =>
        (Normal tt,
         mkState (JsMap.delete n (clients s)) (blueprintId s) (trace s ++ [EvClose c]))
    | Some e =>
        (Throw (DisconnectFailed n e),
         mkState (clients s) (blueprintId s)
           (trace s ++ [EvClose c;
                        EvConsoleError ("Failed to disconnect from server '" +:+ n +:+ "': "
                                        +:+ message e)]))
    end.
Proof.
  intros H. unfold disconnectServer. msimpl. rewrite H.
  destruct (client_close host c); cbn; [|done].
  by rewrite <- app_assoc.
Qed.

Lemma disconnectEach_step k c rest bp tr :
  disconnectEach host (JsMap.keys ((k, c) :: rest)) (mkState ((k, c) :: rest) bp tr)
  = match client_close host c with
    | None => disconnectEach host (JsMap.keys rest) (mkState rest bp (tr ++ [EvClose c]))
    | Some e =>
        (Throw (DisconnectFailed k e),
         mkState ((k, c) :: rest) bp
           (tr ++ [EvClose c;
                   EvConsoleError ("Failed to disconnect from server '" +:+ k +:+ "': "
                                   +:+ message e)]))
    end.
Proof.
  change (JsMap.keys ((k, c) :: rest)) with (k :: JsMap.keys rest).
  cbn [disconnectEach]. unfold mbind at 1, M_bind at 1.
  rewrite (disconnectServer_present k c) by apply get_head.
  destruct (client_close host c); [done|].
  cbn [clients blueprintId trace]. by rewrite delete_head.
Qed.

Lemma disconnectEach_all_close l bp tr :
  Forall (closeSucceeds host) l →
  disconnectEach host (JsMap.keys l) (mkState l bp tr)
  = (Normal tt, mkState [] bp (tr ++ (EvClose <$> l.*2))).
Proof.
  intros Hall. revert tr. induction Hall as [|[k c] l Hc Hall IH]; intros tr.
  - cbn. msimpl. by rewrite app_nil_r.
  - rewrite disconnectEach_step. unfold closeSucceeds in Hc. cbn in Hc. rewrite Hc.
    rewrite IH. cbn. by rewrite <- app_assoc.
Qed.

Lemma disconnectEach_first_failure pre n c e post bp tr :
  Forall (closeSucceeds host) pre →
  client_close host c = Some e →
  disconnectEach host (JsMap.keys (pre ++ (n, c) :: post))
    (mkState (pre ++ (n, c) :: post) bp tr)
  = (Throw (DisconnectFailed n e),
     mkState ((n, c) :: post) bp
       (tr ++ (EvClose <$> pre.*2)
           ++ [EvClose c;
               EvConsoleError ("Failed to disconnect from server '" +:+ n +:+ "': "
                               +:+ message e)])).
Proof.
  intros Hall He. revert tr. induction Hall as [|[k c'] l Hc Hall IH]; intros tr.
  - cbn [app]. rewrite disconnectEach_step. by rewrite He.
  - change (((k, c') :: l) ++ (n, c) :: post) with ((k, c') :: (l ++ (n, c) :: post)).
    rewrite disconnectEach_step. unfold closeSucceeds in Hc. cbn in Hc. rewrite Hc.
    rewrite IH. cbn. by rewrite <- app_assoc.
Qed.

(** C1 (as the code has it): when the close of a registered session
    fails, disconnect throws DisconnectFailed carrying the cause and the
    registry is left as it was: the name is still listed and later
    operations on it still reach its session. *)
Theorem disconnect_close_failure_keeps_entry n c e s :
  JsMap.get n (clients s) = Some c →
  client_close host c = Some e →
  ∃ s', disconnectServer host n s = (Throw (DisconnectFailed n e), s')
        ∧ clients s' = clients s
        ∧ (∃ names, listServers s' = (Normal names, s') ∧ n ∈ names)
        ∧ getClient n s' = (Normal c, s').
Proof.
  intros Hget He. rewrite (disconnectServer_present n c s Hget), He.
  eexists. split; [reflexivity|]. split; [done|]. split.
  - eexists. split; [reflexivity|]. cbn. by eapply get_Some_keys.
  - unfold getClient. msimpl. by rewrite Hget.
Qed.

(** C2 (as the code has it): [disconnectAll] walks the registered names
    in connect order and stops at the first disconnect that fails, which
    it propagates.  If every close succeeds the registry ends empty;
    otherwise the names before the failing one are gone, the failing name
    and all later ones are still registered, and no close was attempted
    on the later ones. *)
Theorem disconnectAll_stops_at_first_failure s :
  (Forall (closeSucceeds host) (clients s) →
     ∃ s', disconnectAll host s = (Normal tt, s')
           ∧ clients s' = []
           ∧ trace s' = trace s ++ (EvClose <$> (clients s).*2))
  ∧ (∀ pre n c e post,
       clients s = pre ++ (n, c) :: post →
       Forall (closeSucceeds host) pre →
       client_close host c = Some e →
       ∃ s', disconnectAll host s = (Throw (DisconnectFailed n e), s')
             ∧ clients s' = (n, c) :: post
             ∧ trace s' = trace s ++ (EvClose <$> pre.*2)
                 ++ [EvClose c;
                     EvConsoleError ("Failed to disconnect from server '" +:+ n +:+ "': "
                                     +:+ message e)]).
Proof.
  destruct s as [cl bp tr]. unfold disconnectAll, getConnectedServers. msimpl. split.
  - intros Hall. rewrite (disconnectEach_all_close cl bp tr Hall). by eexists.
  - intros pre n c e post -> Hall He.
    rewrite (disconnectEach_first_failure pre n c e post bp tr Hall He). by eexists.
Qed.

End Disconnect.

(** ** The map operations keep keys unique *)

Section MapInvariant.
Context {V : Type}.
Implicit Types m : list (string * V).

Lemma wf_empty : JsMap.wf (V := V) [].
Proof. apply NoDup_nil_2. Qed.

Lemma keys_set_elem k v m k' :
  k' ∈ JsMap.keys (JsMap.set k v m) ↔ k' = k ∨ k' ∈ JsMap.keys m.
Proof.
  unfold JsMap.keys. induction m as [|[k0 v0] m IH]; cbn.
  - rewrite list_elem_of_singleton. split; [by left|].
    intros [->|Hin]; [done|]. by apply elem_of_nil in Hin.
  - destruct (String.eqb k0 k) eqn:E; cbn.
    + apply String.eqb_eq in E as ->. rewrite elem_of_cons. tauto.
    + rewrite !elem_of_cons, IH. tauto.
Qed.

Lemma wf_set k v m : JsMap.wf m → JsMap.wf (JsMap.set k v m).
Proof.
  unfold JsMap.wf. induction m as [|[k0 v0] m IH]; cbn.
  - intros _. apply NoDup_singleton.
  - intros Hnd. apply NoDup_cons in Hnd as [Hk0 Hnd].
    destruct (String.eqb k0 k) eqn:E; cbn.
    + by apply NoDup_cons.
    + apply NoDup_cons. split; [|by apply IH].
      apply String.eqb_neq in E. intros Hin.
      apply (keys_set_elem k v m k0) in Hin as [->|Hin]; [done|by apply Hk0].
Qed.

Lemma keys_delete_elem k m k' :
  k' ∈ JsMap.keys (JsMap.delete k m) → k' ∈ JsMap.keys m.
Proof.
  unfold JsMap.keys. induction m as [|[k0 v0] m IH]; cbn; [done|].
  destruct (String.eqb k0 k); cbn; rewrite ?elem_of_cons; [by right|].
  intros [->|Hin]; [by left|]. right. by apply IH.
Qed.

Lemma wf_delete k m : JsMap.wf m → JsMap.wf (JsMap.delete k m).
Proof.
  unfold JsMap.wf. induction m as [|[k0 v0] m IH]; cbn; [done|].
  intros Hnd. apply NoDup_cons in Hnd as [Hk0 Hnd].
  destruct (String.eqb k0 k); cbn; [done|].
  apply NoDup_cons. split; [|by apply IH].
  intros Hin. by apply Hk0, (keys_delete_elem k).
Qed.

End MapInvariant.

(** Every method leaves a well-formed registry well-formed; shown here for
    the two that write to it. *)
Lemma connectToServer_wf host n p s :
  JsMap.wf (clients s) → JsMap.wf (clients (connectToServer host n p s).2).
Proof.
  intros Hwf. destruct (JsMap.has n (clients s)) eqn:Hn.
  - by rewrite connectToServer_present.
  - rewrite (connectToServer_absent host n p s Hn).
    destruct (makeTransport host n p) as [e|t]; [done|].
    destruct (client_connect host (freshClient n) t); [done|].
    by apply wf_set.
Qed.

Lemma disconnectServer_wf host n s :
  JsMap.wf (clients s) → JsMap.wf (clients (disconnectServer host n s).2).
Proof.
  intros Hwf. destruct (JsMap.get n (clients s)) as [c|] eqn:Hn.
  - rewrite (disconnectServer_present host n c s Hn).
    destruct (client_close host c); [done|]. by apply wf_delete.
  - by rewrite disconnectServer_absent.
Qed.

(** ** Assignments to plain objects *)

Section PlainObjects.
Context {V : Type}.
Implicit Types o : JsObject.t V.

Lemma own_empty_lookup k : JsObject.own (∅ : JsObject.t V) !! k = None.
Proof. apply lookup_empty. Qed.

Lemma set_own_ne b k v o n :
  n ≠ k → JsObject.own (JsObject.set b k v o) !! n = JsObject.own o !! n.
Proof.
  intros Hne. unfold JsObject.set.
  destruct (String.eqb k "__proto__"); [|by apply lookup_insert_ne].
  destruct (JsObject.own o !! k); [by apply lookup_insert_ne|by destruct b].
Qed.

Lemma set_own_eq b k v o :
  k ≠ "__proto__" → JsObject.own (JsObject.set b k v o) !! k = Some v.
Proof.
  intros Hk. unfold JsObject.set. apply String.eqb_neq in Hk as ->.
  apply lookup_insert_eq.
Qed.

Lemma set_own_proto_present b v w o :
  JsObject.own o !! "__proto__" = Some w →
  JsObject.own (JsObject.set b "__proto__" v o) !! "__proto__" = Some v.
Proof.
  intros H. unfold JsObject.set. rewrite String.eqb_refl, H. apply lookup_insert_eq.
Qed.

Lemma set_own_proto_absent b k v o :
  JsObject.own o !! "__proto__" = None →
  JsObject.own (JsObject.set b k v o) !! "__proto__" = None.
Proof.
  intros H. destruct (decide (k = "__proto__")) as [->|Hk].
  - unfold JsObject.set. rewrite String.eqb_refl, H. by destruct b.
  - by rewrite set_own_ne.
Qed.

Lemma set_proto_other b k v o :
  k ≠ "__proto__" → JsObject.proto (JsObject.set b k v o) = JsObject.proto o.
Proof. intros Hk. unfold JsObject.set. by apply String.eqb_neq in Hk as ->. Qed.

Lemma set_proto_object v o :
  JsObject.own o !! "__proto__" = None →
  JsObject.proto (JsObject.set true "__proto__" v o) = Some v.
Proof. intros H. unfold JsObject.set. by rewrite String.eqb_refl, H. Qed.

(** The own properties after [Object.assign] with primitive values. *)
Lemma assign_primitives_own o (source : gmap string V) :
  (∀ k, k ≠ "__proto__" ∨ is_Some (JsObject.own o !! "__proto__") →
        JsObject.own (JsObject.assign false o source) !! k
        = match source !! k with
          | Some v => Some v
          | None => JsObject.own o !! k
          end)
  ∧ (JsObject.own o !! "__proto__" = None →
       JsObject.own (JsObject.assign false o source) !! "__proto__" = None).
Proof.
  unfold JsObject.assign.
  apply (map_fold_weak_ind
           (λ r m,
              (∀ k, k ≠ "__proto__" ∨ is_Some (JsObject.own o !! "__proto__") →
                    JsObject.own r !! k
                    = match m !! k with
                      | Some v => Some v
                      | None => JsObject.own o !! k
                      end)
              ∧ (JsObject.own o !! "__proto__" = None →
                   JsObject.own r !! "__proto__" = None))).
  - split; [|done]. intros k _. by rewrite lookup_empty.
  - intros i x m r Hi [IH1 IH2]. split.
    + intros k Hk. destruct (decide (k = i)) as [->|Hne].
      * rewrite lookup_insert_eq. destruct (decide (i = "__proto__")) as [->|Hi'].
        -- destruct Hk as [Hk|[w Hw]]; [done|].
           pose proof (IH1 "__proto__" (or_intror (ex_intro _ w Hw))) as Hr.
           rewrite Hi, Hw in Hr. by apply (set_own_proto_present _ _ w).
        -- by apply set_own_eq.
      * rewrite set_own_ne by done. rewrite lookup_insert_ne by done. by apply IH1.
    + intros Ho. apply set_own_proto_absent. by apply IH2.
Qed.

End PlainObjects.

(** ** Searching *)

Section Search.
Context (host : Host).

Lemma regex_test_not_global r subject :
  reGlobal r = false → regex_test r subject = (found (reSearch r) subject, r).
Proof.
  intros Hg. unfold regex_test, found. rewrite Hg.
  by destruct (reSearch r subject 0).
Qed.

Lemma matchTool_not_global searchIn tool r :
  reGlobal r = false →
  matchTool searchIn tool r = (toolMatches searchIn (reSearch r) tool, r).
Proof.
  intros Hg. unfold matchTool, toolMatches.
  destruct searchIn, (truthyStr (Tool.name tool)), (truthyStr (Tool.description tool));
    rewrite ?(regex_test_not_global _ _ Hg); try done;
    cbn; rewrite ?(regex_test_not_global _ _ Hg); by rewrite ?orb_false_r.
Qed.

Lemma filterTools_not_global searchIn r ts :
  reGlobal r = false →
  filterTools searchIn r ts = (List.filter (toolMatches searchIn (reSearch r)) ts, r).
Proof.
  intros Hg. induction ts as [|t ts IH]; [done|].
  cbn [filterTools List.filter]. rewrite (matchTool_not_global _ _ _ Hg), IH.
  by destruct (toolMatches searchIn (reSearch r) t).
Qed.

Lemma newRegExp_compiled pattern flags search :
  RegExp_compile host pattern (hasFlag "i"%char flags) = inr search →
  newRegExp host pattern flags = inr (mkRegExp search (hasFlag "g"%char flags) 0).
Proof. intros H. unfold newRegExp. by rewrite H. Qed.

Lemma newRegExp_rejected pattern flags e :
  RegExp_compile host pattern (hasFlag "i"%char flags) = inl e →
  newRegExp host pattern flags = inl e.
Proof. intros H. unfold newRegExp. by rewrite H. Qed.

Lemma listTools_present n c s :
  JsMap.get n (clients s) = Some c →
  listTools host n s =
    (match client_listTools host c with
     | inl e => Throw e
     | inr resp => Normal resp
     end,
     mkState (clients s) (blueprintId s) (trace s ++ [EvListTools c])).
Proof.
  intros H. unfold listTools, getClient. msimpl. rewrite H.
  by destruct (client_listTools host c).
Qed.

Lemma wf_get {V} (m : list (string * V)) k v :
  JsMap.wf m → (k, v) ∈ m → JsMap.get k m = Some v.
Proof.
  unfold JsMap.wf, JsMap.keys. induction m as [|[k' v'] m IH]; cbn.
  - intros _ H. by apply elem_of_nil in H.
  - intros Hnd Hin. apply NoDup_cons in Hnd as [Hk Hnd].
    apply elem_of_cons in Hin as [Heq|Hin].
    + injection Heq as -> ->. by rewrite String.eqb_refl.
    + destruct (String.eqb k' k) eqn:E.
      * apply String.eqb_eq in E as ->. exfalso. apply Hk.
        apply list_elem_of_fmap. by exists (k, v).
      * by apply IH.
Qed.

Lemma get_not_in_keys {V} (m : list (string * V)) k :
  k ∉ JsMap.keys m → JsMap.get k m = None.
Proof.
  intros Hk. destruct (JsMap.get k m) eqn:E; [|done].
  exfalso. apply Hk. by eapply get_Some_keys.
Qed.

(** one pass of the loop over the entries [l], all of them registered in [cl] *)
Lemma searchServers_fold searchIn search l cl bp tr results :
  (∀ k c, (k, c) ∈ l → JsMap.get k cl = Some c) →
  searchServers host searchIn (JsMap.keys l) (mkRegExp search false 0) results
    (mkState cl bp tr)
  = (Normal (foldl (addOutcome host searchIn search) results l),
     mkState cl bp (tr ++ (EvListTools <$> l.*2))).
Proof.
  revert tr results. induction l as [|[k c] l IH]; intros tr results Hreg.
  - cbn. msimpl. by rewrite app_nil_r.
  - change (JsMap.keys ((k, c) :: l)) with (k :: JsMap.keys l).
    cbn [searchServers foldl]. unfold mbind at 1, M_bind at 1. unfold try_catch at 1.
    unfold mbind at 1, M_bind at 1.
    rewrite (listTools_present k c) by (apply Hreg, list_elem_of_here).
    cbn [clients blueprintId trace].
    assert (Hrest : ∀ k' c', (k', c') ∈ l → JsMap.get k' cl = Some c')
      by (intros k' c' Hin; by apply Hreg, list_elem_of_further).
    unfold addOutcome at 2, searchOutcome. cbn [fst snd].
    destruct (client_listTools host c) as [e|resp].
    + msimpl. rewrite IH by exact Hrest. cbn. by rewrite <- app_assoc.
    + destruct (tools resp) as [ts|].
      * rewrite filterTools_not_global by done. cbn [reSearch].
        destruct (List.filter (toolMatches searchIn search) ts) as [|t m] eqn:Ef.
        -- msimpl. cbn. msimpl. rewrite IH by exact Hrest. cbn. by rewrite <- app_assoc.
        -- msimpl. cbn. msimpl. rewrite IH by exact Hrest. cbn. by rewrite <- app_assoc.
      * msimpl. rewrite IH by exact Hrest. cbn. by rewrite <- app_assoc.
Qed.

Lemma foldl_addOutcome_lookup searchIn search l results n :
  JsMap.wf l →
  n ≠ "__proto__" →
  JsObject.own (foldl (addOutcome host searchIn search) results l) !! n
  = match JsMap.get n l with
    | None => JsObject.own results !! n
    | Some c =>
        match searchOutcome host searchIn search c with
        | Some v => Some v
        | None => JsObject.own results !! n
        end
    end.
Proof.
  unfold JsMap.wf. intros Hnd Hn. revert results Hnd.
  induction l as [|[k c] l IH]; intros results Hnd; [done|].
  change (JsMap.keys ((k, c) :: l)) with (k :: JsMap.keys l) in Hnd.
  apply NoDup_cons in Hnd as [Hk Hnd].
  cbn [foldl JsMap.get]. rewrite (IH _ Hnd). unfold addOutcome. cbn [fst snd].
  destruct (String.eqb k n) eqn:E.
  - apply String.eqb_eq in E as ->. rewrite (get_not_in_keys _ _ Hk).
    destruct (searchOutcome host searchIn search c); [|done].
    by rewrite set_own_eq.
  - apply String.eqb_neq in E.
    destruct (searchOutcome host searchIn search c); [|done].
    by rewrite set_own_ne.
Qed.

(** Under the key [__proto__] no own property is ever created; what the
    server of that name contributes ends up as the prototype. *)
Lemma foldl_addOutcome_proto searchIn search l results :
  JsMap.wf l →
  JsObject.own results !! "__proto__" = None →
  JsObject.own (foldl (addOutcome host searchIn search) results l) !! "__proto__" = None
  ∧ JsObject.proto (foldl (addOutcome host searchIn search) results l)
    = match JsMap.get "__proto__" l with
      | None => JsObject.proto results
      | Some c =>
          match searchOutcome host searchIn search c with
          | Some v => Some v
          | None => JsObject.proto results
          end
      end.
Proof.
  unfold JsMap.wf. intros Hnd. revert results Hnd.
  induction l as [|[k c] l IH]; intros results Hnd Hown; [done|].
  change (JsMap.keys ((k, c) :: l)) with (k :: JsMap.keys l) in Hnd.
  apply NoDup_cons in Hnd as [Hk Hnd].
  cbn [foldl JsMap.get].
  assert (JsObject.own (addOutcome host searchIn search results (k, c)) !! "__proto__" = None)
    as Hown'.
  { unfold addOutcome. cbn [fst snd].
    destruct (searchOutcome host searchIn search c); [|done].
    by apply set_own_proto_absent. }
  destruct (IH _ Hnd Hown') as [IH1 IH2]. split; [done|]. rewrite IH2.
  unfold addOutcome. cbn [fst snd].
  destruct (String.eqb k "__proto__") eqn:E.
  - apply String.eqb_eq in E as ->. rewrite (get_not_in_keys _ _ Hk).
    destruct (searchOutcome host searchIn search c); [|done].
    by apply set_proto_object.
  - apply String.eqb_neq in E.
    destruct (JsMap.get "__proto__" l) as [c'|];
      destruct (searchOutcome host searchIn search c); try done;
      by rewrite set_proto_other.
Qed.

Lemma findTools_empty pattern searchIn caseSensitive s :
  clients s = [] →
  findTools host pattern searchIn caseSensitive s = (Normal ∅, s).
Proof. intros H. unfold findTools, getConnectedServers. msimpl. by rewrite H. Qed.

Lemma findTools_nonempty pattern searchIn caseSensitive s :
  clients s ≠ [] →
  findTools host pattern searchIn caseSensitive s =
    match RegExp_compile host pattern (negb (default false caseSensitive)) with
    | inl e => (Throw (InvalidPattern e), s)
    | inr search =>
        searchServers host (default SearchBoth searchIn) (JsMap.keys (clients s))
          (mkRegExp search false 0) ∅ s
    end.
Proof.
  intros H. unfold findTools, getConnectedServers, newRegExp. msimpl.
  destruct (clients s) as [|kc cl] eqn:E; [done|]. cbn [JsMap.keys fmap list_fmap length Nat.eqb].
  destruct caseSensitive as [[|]|]; cbn;
    by destruct (RegExp_compile host pattern _).
Qed.

(** C3 (as the code has it): with a pattern the engine rejects, the
    all-servers search over a non-empty registry throws InvalidPattern
    carrying the engine's message and the state, trace included, is
    untouched (no listing was requested); over the empty registry it
    returns the empty mapping, the pattern not having been compiled. *)
Theorem findTools_invalid_pattern pattern searchIn caseSensitive e s :
  RegExp_compile host pattern (negb (default false caseSensitive)) = inl e →
  (clients s ≠ [] →
     findTools host pattern searchIn caseSensitive s = (Throw (InvalidPattern e), s))
  ∧ (clients s = [] →
       findTools host pattern searchIn caseSensitive s = (Normal ∅, s)).
Proof.
  intros He. split; intros Hcl.
  - by rewrite (findTools_nonempty _ _ _ _ Hcl), He.
  - by apply findTools_empty.
Qed.

(** X18: with a pattern that compiles, the all-servers search returns
    normally after asking every registered server, in order, for its
    listing.  For every server whose name is not [__proto__]: a failed
    listing call is recorded as one error marker carrying the failure
    message; matches are recorded as exactly the matching descriptors,
    projected; no match, or a listing of unexpected shape, leaves no
    property.  No name outside the registry has a property.  For a
    server named [__proto__] no own property is created, whatever its
    outcome: the array that would be stored becomes the prototype of the
    result object. *)
Theorem findTools_best_effort pattern searchIn caseSensitive search s :
  JsMap.wf (clients s) →
  RegExp_compile host pattern (negb (default false caseSensitive)) = inr search →
  ∃ results s',
    findTools host pattern searchIn caseSensitive s = (Normal results, s')
    ∧ clients s' = clients s
    ∧ trace s' = trace s ++ (EvListTools <$> (clients s).*2)
    ∧ (∀ n, JsMap.get n (clients s) = None → JsObject.own results !! n = None)
    ∧ (∀ n c, n ≠ "__proto__" → JsMap.get n (clients s) = Some c →
         (∀ err, client_listTools host c = inl err →
            JsObject.own results !! n
            = Some [ErrorMarker ("Failed to search tools: " +:+ message err)])
         ∧ (∀ resp, client_listTools host c = inr resp → tools resp = None →
              JsObject.own results !! n = None)
         ∧ (∀ resp ts, client_listTools host c = inr resp → tools resp = Some ts →
              let matched :=
                List.filter (toolMatches (default SearchBoth searchIn) search) ts in
              (matched = [] → JsObject.own results !! n = None)
              ∧ (matched ≠ [] →
                   JsObject.own results !! n = Some ((Matched ∘ summarize) <$> matched))))
    ∧ JsObject.own results !! "__proto__" = None
    ∧ (∀ c, JsMap.get "__proto__" (clients s) = Some c →
         JsObject.proto results = searchOutcome host (default SearchBoth searchIn) search c).
Proof.
  intros Hwf Hc. destruct s as [cl bp tr]. cbn [clients trace] in *.
  destruct cl as [|kc cl'] eqn:Ecl.
  - exists ∅, (mkState [] bp tr). rewrite findTools_empty by done. cbn.
    rewrite app_nil_r. repeat split; try done.
  - rewrite <- Ecl in *. assert (cl ≠ []) as Hne by (by rewrite Ecl).
    rewrite (findTools_nonempty _ _ _ (mkState cl bp tr) Hne), Hc. cbn [clients].
    rewrite searchServers_fold by (intros k c; by apply wf_get).
    eexists _, _. split; [reflexivity|]. cbn [clients trace].
    split; [done|]. split; [done|].
    destruct (foldl_addOutcome_proto (default SearchBoth searchIn) search cl ∅ Hwf
                (own_empty_lookup _)) as [Hown Hproto].
    split; [|split; [|split; [done|]]].
    + intros n Hn. destruct (decide (n = "__proto__")) as [->|Hn']; [done|].
      by rewrite (foldl_addOutcome_lookup _ _ _ _ _ Hwf Hn'), Hn, own_empty_lookup.
    + intros n c Hn' Hn.
      rewrite (foldl_addOutcome_lookup _ _ _ _ _ Hwf Hn'), Hn.
      rewrite own_empty_lookup.
      unfold searchOutcome. split; [|split].
      * by intros err ->.
      * by intros resp -> ->.
      * intros resp ts -> ->. cbn zeta.
        destruct (List.filter _ ts) as [|t m]; split; done.
    + intros c Hget. rewrite Hproto, Hget.
      by destruct (searchOutcome host (default SearchBoth searchIn) search c).
Qed.

End Search.

(** ** Listing *)

Section Listing.
Context (host : Host).

Lemma listToolsInServer_present n c s :
  JsMap.get n (clients s) = Some c →
  listToolsInServer host n s =
    (match client_listTools host c with
     | inl e => Throw e
     | inr resp => Normal (match tools resp with
                           | Some ts => summarize <$> ts
                           | None => []
                           end)
     end,
     mkState (clients s) (blueprintId s) (trace s ++ [EvListTools c])).
Proof.
  intros H. unfold listToolsInServer, getClient. msimpl. rewrite H.
  destruct (client_listTools host c) as [e|resp]; [done|].
  by destruct (tools resp).
Qed.

(** C9: on a registered server the summary listing asks the server once,
    exactly as the full listing does, and fails whenever the full listing
    fails.  When the full listing returns an array, the summary has the
    same length and its i-th element carries the name and the description
    of the i-th full descriptor; when the array is empty or the listing
    has an unexpected shape the summary is the empty sequence. *)
Theorem listToolsInServer_projects_listTools n c s :
  JsMap.get n (clients s) = Some c →
  (∀ e s', listTools host n s = (Throw e, s') →
     listToolsInServer host n s = (Throw e, s'))
  ∧ (∀ resp s', listTools host n s = (Normal resp, s') →
       ∃ summary,
         listToolsInServer host n s = (Normal summary, s')
         ∧ (tools resp = None → summary = [])
         ∧ (tools resp = Some [] → summary = [])
         ∧ (∀ ts, tools resp = Some ts →
              length summary = length ts
              ∧ ∀ i tool, ts !! i = Some tool →
                  ∃ entry, summary !! i = Some entry
                           ∧ Summary.name entry = Tool.name tool
                           ∧ Summary.description entry = Tool.description tool)).
Proof.
  intros Hget. rewrite (listTools_present host n c s Hget).
  rewrite (listToolsInServer_present n c s Hget).
  destruct (client_listTools host c) as [e0|resp0]; split.
  - by intros e s' [= <- <-].
  - by intros resp s' [=].
  - by intros e s' [=].
  - intros resp s' [= <- <-]. eexists. split; [reflexivity|].
    split; [by intros ->|]. split; [by intros ->|].
    intros ts ->. split; [by rewrite length_fmap|].
    intros i tool Hi. exists (summarize tool).
    by rewrite list_lookup_fmap, Hi.
Qed.

End Listing.

(** ** Loading a blueprint *)

Section Blueprint.
Context (host : Host).

Lemma get_set_ne {V} (m : list (string * V)) k k' v :
  k ≠ k' → JsMap.get k (JsMap.set k' v m) = JsMap.get k m.
Proof.
  intros Hne. induction m as [|[k0 v0] m IH]; cbn.
  - destruct (String.eqb k' k) eqn:E; [|done].
    apply String.eqb_eq in E. congruence.
  - destruct (String.eqb k0 k') eqn:E; cbn.
    + apply String.eqb_eq in E as ->.
      destruct (String.eqb k' k) eqn:E'; [|done].
      apply String.eqb_eq in E'. congruence.
    + by rewrite IH.
Qed.

Lemma has_get {V} (m : list (string * V)) k :
  JsMap.has k m = true ↔ ∃ v, JsMap.get k m = Some v.
Proof.
  unfold JsMap.has. destruct (JsMap.get k m); split; try done; eauto.
  by intros [v [=]].
Qed.

Lemma connectToServer_preserves m p s n c :
  JsMap.get n (clients s) = Some c →
  JsMap.get n (clients (connectToServer host m p s).2) = Some c.
Proof.
  intros Hn. destruct (JsMap.has m (clients s)) eqn:Hm.
  - by rewrite connectToServer_present.
  - rewrite (connectToServer_absent host m p s Hm).
    destruct (makeTransport host m p) as [e|t]; [done|].
    destruct (client_connect host (freshClient m) t) as [e|c']; [done|].
    cbn. rewrite get_set_ne; [done|].
    intros ->. unfold JsMap.has in Hm. by rewrite Hn in Hm.
Qed.

Lemma connectEntries_cons serverName serverConfig rest s :
  connectEntries host ((serverName, serverConfig) :: rest) s =
    if JsMap.has serverName (clients s) then connectEntries host rest s
    else connectEntries host rest (afterAttempt host serverName serverConfig s).
Proof.
  cbn [connectEntries]. unfold afterAttempt. msimpl.
  destruct (JsMap.has serverName (clients s)); [done|].
  by destruct (connectToServer host serverName serverConfig s) as [[[]|e] s1].
Qed.

Lemma afterAttempt_preserves m p s n c :
  JsMap.get n (clients s) = Some c →
  JsMap.get n (clients (afterAttempt host m p s)) = Some c.
Proof.
  intros Hn. pose proof (connectToServer_preserves m p s n c Hn) as H.
  unfold afterAttempt. by destruct (connectToServer host m p s) as [[[]|e] s1].
Qed.

Lemma connectEntries_normal entries s :
  ∃ s', connectEntries host entries s = (Normal tt, s').
Proof.
  revert s. induction entries as [|[n p] rest IH]; intros s.
  - by exists s.
  - rewrite connectEntries_cons. destruct (JsMap.has n (clients s)); apply IH.
Qed.

Lemma connectEntries_preserves entries s n c :
  JsMap.get n (clients s) = Some c →
  JsMap.get n (clients (connectEntries host entries s).2) = Some c.
Proof.
  revert s. induction entries as [|[m p] rest IH]; intros s Hn; [done|].
  rewrite connectEntries_cons. destruct (JsMap.has m (clients s)).
  - by apply IH.
  - by apply IH, afterAttempt_preserves.
Qed.

Lemma connectEntries_skips (P : string → bool) entries s :
  (∀ n, P n = true → JsMap.has n (clients s) = true) →
  connectEntries host entries s
  = connectEntries host (List.filter (λ entry, negb (P entry.1)) entries) s.
Proof.
  revert s. induction entries as [|[m p] rest IH]; intros s HP; [done|].
  cbn [List.filter fst]. destruct (P m) eqn:Em; cbn [negb].
  - rewrite connectEntries_cons, (HP m Em). by apply IH.
  - rewrite !connectEntries_cons. destruct (JsMap.has m (clients s)); [by apply IH|].
    apply IH. intros n Hn. apply has_get. apply HP, has_get in Hn as [c Hc].
    exists c. by apply afterAttempt_preserves.
Qed.

(** C10: the loop over the blueprint's servers never throws: an entry
    whose name is registered is skipped (the run equals the run on the
    list without these entries, and their sessions stay as they were),
    and an entry whose connect fails is logged and the loop goes on with
    the rest.  Consequently [loadFromBlueprint] throws exactly when no
    blueprint id is available or fetching the configuration throws. *)
Theorem loadFromBlueprint_failures bid s :
  (∀ entries s0, ∃ s1, connectEntries host entries s0 = (Normal tt, s1))
  ∧ (∀ entries s0,
       connectEntries host entries s0
       = connectEntries host
           (List.filter (λ entry, negb (JsMap.has entry.1 (clients s0))) entries) s0)
  ∧ (∀ entries s0 n c,
       JsMap.get n (clients s0) = Some c →
       JsMap.get n (clients (connectEntries host entries s0).2) = Some c)
  ∧ (∀ n p rest s0 e s1,
       JsMap.has n (clients s0) = false →
       connectToServer host n p s0 = (Throw e, s1) →
       ∃ s2, connectEntries host ((n, p) :: rest) s0 = connectEntries host rest s2
             ∧ clients s2 = clients s1)
  ∧ ((∃ e s', loadFromBlueprint host bid s = (Throw e, s'))
     ↔ truthyStr (orElse bid (blueprintId s)) = None
       ∨ ∃ id e s', truthyStr (orElse bid (blueprintId s)) = Some id
                    ∧ fetchConfigFromApi host id s = (Throw e, s')).
Proof.
  split; [apply connectEntries_normal|].
  split; [intros entries s0;
          by apply (connectEntries_skips (λ n, JsMap.has n (clients s0)))|].
  split; [intros; by apply connectEntries_preserves|].
  split.
  - intros n p rest s0 e s1 Hn Hc. rewrite connectEntries_cons, Hn.
    eexists. split; [reflexivity|]. unfold afterAttempt. by rewrite Hc.
  - unfold loadFromBlueprint. msimpl.
    destruct (truthyStr (orElse bid (blueprintId s))) as [id|] eqn:Eid.
    + destruct (fetchConfigFromApi host id s) as [[config|e] s1] eqn:Ef.
      * split.
        -- intros (e & s' & H). exfalso.
           destruct (mcpServers config) as [[|entry rest]|]; try discriminate H.
           destruct (connectEntries_normal (entry :: rest) s1) as [s2 Hs2].
           rewrite Hs2 in H. discriminate H.
        -- intros [[=]|(id' & e & s' & [= <-] & H)]. rewrite Ef in H. discriminate H.
      * split; [|by eauto]. intros _. right. by exists id, e, s1.
    + split; [by left|]. intros _. by eexists _, _.
Qed.

End Blueprint.

(** ** Concrete runs *)

Lemma connect_already_connected_witness :
  ∃ s', connectToServer Demo.host "fs" (Demo.stdioParams "node") Demo.fsOnly
        = (Throw (AlreadyConnected "fs"), s')
        ∧ clients s' = clients Demo.fsOnly
        ∧ JsMap.get "fs" (clients s') = JsMap.get "fs" (clients Demo.fsOnly)
        ∧ trace s' = trace Demo.fsOnly.
Proof.
  apply (connect_already_connected Demo.host "fs" (Demo.stdioParams "node") Demo.fsOnly).
  reflexivity.
Defined.

Lemma connect_transport_failure_witness :
  ∃ s', connectToServer Demo.host "ghost" (Demo.stdioParams "missing-binary") Demo.fsOnly
        = (Throw (ConnectionFailed "ghost" (Error "spawn missing-binary ENOENT")), s')
        ∧ clients s' = clients Demo.fsOnly
        ∧ JsMap.get "ghost" (clients s') = None
        ∧ ∀ m, JsMap.get m (clients s') = JsMap.get m (clients Demo.fsOnly).
Proof.
  apply (connect_transport_failure Demo.host "ghost" (Demo.stdioParams "missing-binary")
           Demo.fsOnly
           (StdioClientTransport "missing-binary" [] (process_env Demo.host))
           (Error "spawn missing-binary ENOENT")); reflexivity.
Defined.


(** On a session that refuses to close, the entry survives the failed
    disconnect: the reading of C1 in the specification does not hold. *)
Lemma close_failure_removes_entry_fails :
  ¬ close_failure_removes_entry Demo.host Demo.stuckThenFs "stuck".
Proof.
  intros H.
  destruct (H (Demo.client "stuck" "npx") (Error "close timed out") eq_refl eq_refl)
    as (s' & Hrun & Hgone).
  rewrite (disconnectServer_present Demo.host "stuck" (Demo.client "stuck" "npx")) in Hrun
    by reflexivity.
  cbn in Hrun. injection Hrun as <-. apply Hgone. apply list_elem_of_here.
Qed.

Lemma disconnect_close_failure_keeps_entry_witness :
  ∃ s', disconnectServer Demo.host "stuck" Demo.stuckThenFs
        = (Throw (DisconnectFailed "stuck" (Error "close timed out")), s')
        ∧ clients s' = clients Demo.stuckThenFs
        ∧ (∃ names, listServers s' = (Normal names, s') ∧ "stuck" ∈ names)
        ∧ getClient "stuck" s' = (Normal (Demo.client "stuck" "npx"), s').
Proof.
  apply (disconnect_close_failure_keeps_entry Demo.host "stuck" (Demo.client "stuck" "npx")
           (Error "close timed out") Demo.stuckThenFs); reflexivity.
Defined.

(** The session of [fs] closes without error, yet [fs] is still
    registered after [disconnectAll], which stopped at [stuck]: the
    reading of C2 in the specification does not hold. *)
Lemma teardown_reaches_every_name_fails :
  ¬ teardown_reaches_every_name Demo.host Demo.stuckThenFs.
Proof.
  intros H. apply (H "fs" (Demo.client "fs" "npx") eq_refl eq_refl).
  assert (JsMap.keys (clients (disconnectAll Demo.host Demo.stuckThenFs).2)
          = ["stuck"; "fs"]) as -> by (vm_compute; reflexivity).
  apply list_elem_of_further, list_elem_of_here.
Qed.

Lemma disconnectAll_stops_at_first_failure_witness :
  ∃ s', disconnectAll Demo.host Demo.fsThenStuckThenFiles
        = (Throw (DisconnectFailed "stuck" (Error "close timed out")), s')
        ∧ clients s' = [("stuck", Demo.client "stuck" "npx"); ("files", Demo.client "files" "npx")]
        ∧ trace s' = trace Demo.fsThenStuckThenFiles
            ++ (EvClose <$> [("fs", Demo.client "fs" "npx")].*2)
            ++ [EvClose (Demo.client "stuck" "npx");
                EvConsoleError ("Failed to disconnect from server '" +:+ "stuck" +:+ "': "
                                +:+ message (Error "close timed out"))].
Proof.
  apply (disconnectAll_stops_at_first_failure Demo.host Demo.fsThenStuckThenFiles).
  - reflexivity.
  - repeat constructor.
  - reflexivity.
Defined.

(** With no server connected, [findTools] returns before compiling the
    pattern, so a malformed pattern goes unnoticed: the reading of C3 in
    the specification does not hold. *)
Lemma invalid_pattern_rejected_everywhere_fails :
  ¬ invalid_pattern_rejected_everywhere Demo.host "(".
Proof.
  intros H. destruct H as [Hall _].
  - intros ignoreCase. by eexists.
  - destruct (Hall None None (Demo.stateOf [])) as (e & s' & Hrun & _).
    discriminate Hrun.
Qed.

Lemma findTools_invalid_pattern_witness :
  (clients Demo.fsOnly ≠ [] →
     findTools Demo.host "(" None None Demo.fsOnly
     = (Throw (InvalidPattern
                 (mkJsError KSyntaxError "Invalid regular expression: /(/: Unterminated group")),
        Demo.fsOnly))
  ∧ (clients Demo.fsOnly = [] →
       findTools Demo.host "(" None None Demo.fsOnly = (Normal ∅, Demo.fsOnly)).
Proof.
  apply (findTools_invalid_pattern Demo.host "(" None None
           (mkJsError KSyntaxError "Invalid regular expression: /(/: Unterminated group")
           Demo.fsOnly).
  reflexivity.
Defined.

(** The single-server search asks the server for its listing before it
    compiles the pattern, and lets the engine's own error through. *)
Example findToolsInServer_lists_before_compiling :
  findToolsInServer Demo.host "fs" "(" None None Demo.fsOnly
  = (Throw (mkJsError KSyntaxError "Invalid regular expression: /(/: Unterminated group"),
     mkState (clients Demo.fsOnly) None [EvListTools (Demo.client "fs" "npx")]).
Proof. reflexivity. Qed.

(** C4, at a failing input: with a listing [readFile; readDir; writeFile]
    and the pattern [read] searched in names, the rule of the
    specification selects [readFile] and [readDir]; [findToolsInServer]
    returns [readFile] only, because its regex carries the [g] flag and
    the match on [readFile] leaves [lastIndex] at 4 for the test of
    [readDir]. *)
Example findToolsInServer_global_flag_drops_match :
  ∃ search,
    RegExp_compile Demo.host "read" true = inr search
    ∧ client_listTools Demo.host (Demo.client "fs" "npx")
      = inr (mkToolsResponse (Some [Demo.readFile; Demo.readDir; Demo.writeFile]))
    ∧ List.filter (descriptorMatches SearchName search)
        [Demo.readFile; Demo.readDir; Demo.writeFile]
      = [Demo.readFile; Demo.readDir]
    ∧ (findToolsInServer Demo.host "fs" "read" (Some SearchName) None Demo.fsOnly).1
      = Normal [summarize Demo.readFile]
    ∧ (regex_test (mkRegExp search true 0) "readFile").2 = mkRegExp search true 4
    ∧ (regex_test (mkRegExp search true 4) "readDir").1 = false
    ∧ (regex_test (mkRegExp search true 0) "readDir").1 = true.
Proof. eexists. split; [reflexivity|]. repeat split. Qed.

(** The example of the specification: [^read] against [readFile],
    [writeFile], [listDir]. *)
Example findToolsInServer_anchored_read :
  (findToolsInServer Demo.host "files" "^read" (Some SearchName) None
     (Demo.stateOf [("files", Demo.client "files" "npx")])).1
  = Normal [summarize Demo.readFile].
Proof. reflexivity. Qed.


Lemma findTools_best_effort_witness :
  ∃ results s',
    findTools Demo.host "read" (Some SearchName) None Demo.mixed = (Normal results, s')
    ∧ JsObject.own results !! "fs" = Some [Matched (summarize Demo.readFile);
                                           Matched (summarize Demo.readDir)]
    ∧ JsObject.own results !! "broken"
      = Some [ErrorMarker "Failed to search tools: Connection closed"]
    ∧ JsObject.own results !! "odd" = None
    ∧ JsObject.own results !! "idle" = None
    ∧ trace s' = EvListTools <$> (clients Demo.mixed).*2.
Proof.
  destruct (findTools_best_effort Demo.host "read" (Some SearchName) None
              (Fragment.searchOf "read" true)
              Demo.mixed)
    as (results & s' & Hrun & _ & Htrace & _ & Hin & _).
  - apply (bool_decide_unpack _). vm_compute. exact I.
  - reflexivity.
  - exists results, s'. split; [exact Hrun|].
    destruct (Hin "fs" (Demo.client "fs" "npx") ltac:(discriminate) eq_refl)
      as (_ & _ & Hfs).
    destruct (Hfs _ _ eq_refl eq_refl) as [_ Hfs'].
    destruct (Hin "broken" (Demo.client "broken" "npx") ltac:(discriminate) eq_refl)
      as (Hbroken & _ & _).
    destruct (Hin "odd" (Demo.client "odd" "npx") ltac:(discriminate) eq_refl)
      as (_ & Hodd & _).
    destruct (Hin "idle" (Demo.client "idle" "npx") ltac:(discriminate) eq_refl)
      as (_ & _ & Hidle).
    destruct (Hidle _ _ eq_refl eq_refl) as [Hidle' _].
    split; [apply Hfs'; discriminate|].
    split; [exact (Hbroken _ eq_refl)|].
    split; [exact (Hodd _ eq_refl eq_refl)|].
    split; [exact (Hidle' eq_refl)|].
    exact Htrace.
Defined.

Lemma listToolsInServer_projects_listTools_witness :
  (∀ e s', listTools Demo.host "fs" Demo.fsOnly = (Throw e, s') →
     listToolsInServer Demo.host "fs" Demo.fsOnly = (Throw e, s'))
  ∧ (∀ resp s', listTools Demo.host "fs" Demo.fsOnly = (Normal resp, s') →
       ∃ summary,
         listToolsInServer Demo.host "fs" Demo.fsOnly = (Normal summary, s')
         ∧ (tools resp = None → summary = [])
         ∧ (tools resp = Some [] → summary = [])
         ∧ (∀ ts, tools resp = Some ts →
              length summary = length ts
              ∧ ∀ i tool, ts !! i = Some tool →
                  ∃ entry, summary !! i = Some entry
                           ∧ Summary.name entry = Tool.name tool
                           ∧ Summary.description entry = Tool.description tool)).
Proof.
  apply (listToolsInServer_projects_listTools Demo.host "fs" (Demo.client "fs" "npx")
           Demo.fsOnly).
  reflexivity.
Defined.

(** A listing without a tools array is summarised as the empty sequence. *)
Example listToolsInServer_unexpected_shape :
  (listToolsInServer Demo.host "odd" (Demo.stateOf [("odd", Demo.client "odd" "npx")])).1
  = Normal [].
Proof. reflexivity. Qed.

(** Loading blueprint [bp1] while [fs] is registered: [fs] is skipped,
    [ghost] fails to start and is logged, [web] is connected. *)
Example loadFromBlueprint_bp1 :
  ∃ s', loadFromBlueprint Demo.host (Some "bp1") Demo.fsOnly = (Normal tt, s')
        ∧ JsMap.keys (clients s') = ["fs"; "web"]
        ∧ JsMap.get "fs" (clients s') = Some (Demo.client "fs" "npx")
        ∧ EvConsoleError
            "Failed to connect to server 'ghost' from blueprint: Failed to connect to server 'ghost': spawn missing-binary ENOENT"
          ∈ trace s'.
Proof.
  eexists. split; [vm_compute; reflexivity|]. cbn [clients trace].
  split; [reflexivity|]. split; [reflexivity|].
  apply list_elem_of_In. cbn. tauto.
Qed.

Example loadFromBlueprint_fetch_fails :
  (loadFromBlueprint Demo.host (Some "gone") Demo.fsOnly).1
  = Throw (Error "Failed to fetch configuration for blueprint 'gone': HTTP error! status: 404").
Proof. reflexivity. Qed.

Example loadFromBlueprint_no_id :
  (loadFromBlueprint Demo.host None Demo.fsOnly).1 = Throw (Error "Blueprint ID not specified.").
Proof. reflexivity. Qed.

(** * Further properties of the class *)

(** ** More facts about the map *)

Section MapFacts.
Context {V : Type}.
Implicit Types m : list (string * V).

Lemma get_None_not_in_keys k m : JsMap.get k m = None → k ∉ JsMap.keys m.
Proof.
  unfold JsMap.keys. induction m as [|[k0 v0] m IH]; cbn.
  - intros _ H. by apply elem_of_nil in H.
  - destruct (String.eqb k0 k) eqn:E; [done|]. apply String.eqb_neq in E.
    intros Hget Hin. apply elem_of_cons in Hin as [->|Hin]; [done|]. by apply IH.
Qed.

Lemma set_absent k v m : JsMap.get k m = None → JsMap.set k v m = m ++ [(k, v)].
Proof.
  induction m as [|[k0 v0] m IH]; cbn; [done|].
  destruct (String.eqb k0 k); [done|]. intros H. by rewrite IH.
Qed.

Lemma get_app_absent k m m' : JsMap.get k m = None → JsMap.get k (m ++ m') = JsMap.get k m'.
Proof.
  induction m as [|[k0 v0] m IH]; cbn; [done|].
  by destruct (String.eqb k0 k).
Qed.

Lemma delete_app_absent k m m' :
  JsMap.get k m = None → JsMap.delete k (m ++ m') = m ++ JsMap.delete k m'.
Proof.
  induction m as [|[k0 v0] m IH]; cbn; [done|].
  destruct (String.eqb k0 k); [done|]. intros H. by rewrite IH.
Qed.

Lemma get_split k v m :
  JsMap.get k m = Some v →
  ∃ pre post, m = pre ++ (k, v) :: post ∧ JsMap.get k pre = None.
Proof.
  induction m as [|[k0 v0] m IH]; cbn; [done|].
  destruct (String.eqb k0 k) eqn:E.
  - apply String.eqb_eq in E as ->. intros [= ->]. by exists [], m.
  - intros H. destruct (IH H) as (pre & post & -> & Hpre).
    exists ((k0, v0) :: pre), post. split; [done|]. cbn. by rewrite E.
Qed.

Lemma get_delete_ne k k' m : k ≠ k' → JsMap.get k (JsMap.delete k' m) = JsMap.get k m.
Proof.
  intros Hne. induction m as [|[k0 v0] m IH]; cbn; [done|].
  destruct (String.eqb k0 k') eqn:E; cbn.
  - apply String.eqb_eq in E as ->.
    destruct (String.eqb k' k) eqn:E'; [|done].
    apply String.eqb_eq in E'. congruence.
  - by rewrite IH.
Qed.

Lemma get_delete_eq k m : JsMap.wf m → JsMap.get k (JsMap.delete k m) = None.
Proof.
  unfold JsMap.wf. induction m as [|[k0 v0] m IH]; cbn; [done|].
  intros Hnd. apply NoDup_cons in Hnd as [Hk0 Hnd].
  destruct (String.eqb k0 k) eqn:E; cbn.
  - apply String.eqb_eq in E as ->. by apply get_not_in_keys.
  - rewrite E. by apply IH.
Qed.

Lemma get_set_eq k v m : JsMap.get k (JsMap.set k v m) = Some v.
Proof.
  induction m as [|[k0 v0] m IH]; cbn.
  - by rewrite String.eqb_refl.
  - destruct (String.eqb k0 k) eqn:E; cbn; by rewrite E.
Qed.

End MapFacts.

(** ** Lifecycle: what a successful connect and disconnect do *)

Section Lifecycle.
Context (host : Host).

(** X1: a connect under a free name whose session opens registers the
    connected client under that name, after all names registered before;
    the other entries and their order are untouched, and the only outside
    call is the one [client.connect] on the freshly created client. *)
Theorem connect_success_appends n p t c s :
  JsMap.has n (clients s) = false →
  makeTransport host n p = inr t →
  client_connect host (freshClient n) t = inr c →
  ∃ s', connectToServer host n p s = (Normal tt, s')
        ∧ clients s' = clients s ++ [(n, c)]
        ∧ listServers s' = (Normal (JsMap.keys (clients s) ++ [n]), s')
        ∧ getClient n s' = (Normal c, s')
        ∧ (∀ m, m ≠ n → JsMap.get m (clients s') = JsMap.get m (clients s))
        ∧ trace s' = trace s ++ [EvConnect (freshClient n) t].
Proof.
  intros Hhas Ht Hc. rewrite (connectToServer_absent host n p s Hhas), Ht, Hc.
  assert (JsMap.get n (clients s) = None) as Hget
    by (unfold JsMap.has in Hhas; by destruct (JsMap.get n (clients s))).
  eexists. split; [reflexivity|]. cbn [clients trace].
  rewrite (set_absent _ _ _ Hget).
  split; [done|]. split.
  { unfold listServers, getConnectedServers. msimpl.
    unfold JsMap.keys. by rewrite fmap_app. }
  split.
  { unfold getClient. msimpl. rewrite (get_app_absent _ _ _ Hget). cbn.
    by rewrite String.eqb_refl. }
  split; [|done].
  intros m Hm. rewrite <- (set_absent _ c _ Hget). by apply get_set_ne.
Qed.

(** X2: a disconnect of a registered name whose session closes removes
    exactly that entry: the entries before and after it keep their order
    and sessions, the name is no longer listed, and operations on it now
    fail with NotConnected. *)
Theorem disconnect_success_removes n c s :
  JsMap.wf (clients s) →
  JsMap.get n (clients s) = Some c →
  client_close host c = None →
  ∃ s' pre post,
    disconnectServer host n s = (Normal tt, s')
    ∧ clients s = pre ++ (n, c) :: post
    ∧ clients s' = pre ++ post
    ∧ trace s' = trace s ++ [EvClose c]
    ∧ (n ∉ JsMap.keys (clients s'))
    ∧ getClient n s' = (Throw (NotConnected n), s')
    ∧ (∀ m, m ≠ n → JsMap.get m (clients s') = JsMap.get m (clients s)).
Proof.
  intros Hwf Hget Hclose.
  rewrite (disconnectServer_present host n c s Hget), Hclose.
  destruct (get_split _ _ _ Hget) as (pre & post & Hsplit & Hpre).
  assert (JsMap.delete n (clients s) = pre ++ post) as Hdel.
  { rewrite Hsplit, (delete_app_absent _ _ _ Hpre). by rewrite delete_head. }
  assert (JsMap.get n (JsMap.delete n (clients s)) = None) as Hgone
    by (by apply get_delete_eq).
  eexists _, pre, post. split; [reflexivity|]. cbn [clients trace].
  split; [done|]. split; [done|]. split; [done|]. split.
  { by apply get_None_not_in_keys. }
  split.
  { unfold getClient. msimpl. by rewrite Hgone. }
  intros m Hm. by apply get_delete_ne.
Qed.

(** X4: on a registry where the name is free, a successful connect
    followed by a successful disconnect of the same name gives back the
    registry one started from. *)
Theorem connect_then_disconnect n p t c s :
  JsMap.has n (clients s) = false →
  makeTransport host n p = inr t →
  client_connect host (freshClient n) t = inr c →
  client_close host c = None →
  ∃ s1 s2,
    connectToServer host n p s = (Normal tt, s1)
    ∧ disconnectServer host n s1 = (Normal tt, s2)
    ∧ clients s2 = clients s
    ∧ blueprintId s2 = blueprintId s
    ∧ trace s2 = trace s ++ [EvConnect (freshClient n) t; EvClose c].
Proof.
  intros Hhas Ht Hc Hclose.
  rewrite (connectToServer_absent host n p s Hhas), Ht, Hc.
  assert (JsMap.get n (clients s) = None) as Hget
    by (unfold JsMap.has in Hhas; by destruct (JsMap.get n (clients s))).
  eexists _, _. split; [reflexivity|].
  rewrite (disconnectServer_present host n c) by (cbn; apply get_set_eq).
  rewrite Hclose. split; [reflexivity|]. cbn [clients blueprintId trace].
  split; [|split; [done|by rewrite <- app_assoc]].
  rewrite (set_absent _ _ _ Hget), (delete_app_absent _ _ _ Hget), delete_head.
  by rewrite app_nil_r.
Qed.

(** X15: once a connect has succeeded, every further connect under the
    same name is refused with AlreadyConnected, whatever its parameters,
    and the session registered first stays in place. *)
Theorem connect_twice n p p' t c s :
  JsMap.has n (clients s) = false →
  makeTransport host n p = inr t →
  client_connect host (freshClient n) t = inr c →
  ∃ s1,
    connectToServer host n p s = (Normal tt, s1)
    ∧ connectToServer host n p' s1 = (Throw (AlreadyConnected n), s1)
    ∧ JsMap.get n (clients s1) = Some c.
Proof.
  intros Hhas Ht Hc. rewrite (connectToServer_absent host n p s Hhas), Ht, Hc.
  eexists. split; [reflexivity|].
  assert (JsMap.get n (JsMap.set n c (clients s)) = Some c) as Hget by apply get_set_eq.
  split; [|done].
  apply connectToServer_present. cbn. unfold JsMap.has. by rewrite Hget.
Qed.

End Lifecycle.

(** ** Routing and reading *)

Section Routing.
Context (host : Host).

Lemma getClient_absent n s :
  JsMap.get n (clients s) = None → getClient n s = (Throw (NotConnected n), s).
Proof. intros H. unfold getClient. msimpl. by rewrite H. Qed.

Lemma getClient_present n c s :
  JsMap.get n (clients s) = Some c → getClient n s = (Normal c, s).
Proof. intros H. unfold getClient. msimpl. by rewrite H. Qed.

(** X3: every operation addressed to a name that is not registered fails
    with the same NotConnected error, before any outside call: the state,
    trace included, is the one before the call.  For the search this holds
    even when the pattern is malformed. *)
Theorem unregistered_name_is_NotConnected n s :
  JsMap.get n (clients s) = None →
  listTools host n s = (Throw (NotConnected n), s)
  ∧ (∀ toolName, getTool host n toolName s = (Throw (NotConnected n), s))
  ∧ listToolsInServer host n s = (Throw (NotConnected n), s)
  ∧ (∀ pattern searchIn caseSensitive,
       findToolsInServer host n pattern searchIn caseSensitive s
       = (Throw (NotConnected n), s))
  ∧ (∀ toolName args, callTool host n toolName args s = (Throw (NotConnected n), s))
  ∧ disconnectServer host n s = (Throw (NotConnected n), s).
Proof.
  intros H.
  unfold listTools, getTool, listToolsInServer, findToolsInServer, callTool.
  unfold mbind, M_bind. rewrite (getClient_absent n s H).
  repeat split. by apply disconnectServer_absent.
Qed.

(** X5: [getTool] on a registered server whose listing is an array
    returns the first descriptor whose name is exactly the requested one:
    it succeeds exactly when some descriptor has that name, the descriptor
    returned is in the listing with the full schema, and no descriptor
    before it has the name.  Without such a descriptor it fails with the
    tool-not-found error. *)
Theorem getTool_first_exact_match n c toolName ts s :
  JsMap.get n (clients s) = Some c →
  client_listTools host c = inr (mkToolsResponse (Some ts)) →
  let s' := mkState (clients s) (blueprintId s) (trace s ++ [EvListTools c]) in
  (∀ tool, getTool host n toolName s = (Normal tool, s') ↔
     ∃ pre post, ts = pre ++ tool :: post
                 ∧ Tool.name tool = Some toolName
                 ∧ Forall (λ t, Tool.name t ≠ Some toolName) pre)
  ∧ (Forall (λ t, Tool.name t ≠ Some toolName) ts →
       getTool host n toolName s
       = (Throw (Error ("Tool '" +:+ toolName +:+ "' not found on server '" +:+ n +:+ "'")),
          s'))
  ∧ (getTool host n toolName s).2 = s'.
Proof.
  intros Hget Hlist s'.
  assert (getTool host n toolName s =
          (match List.find (λ t, bool_decide (Tool.name t = Some toolName)) ts with
           | Some tool => Normal tool
           | None => Throw (Error ("Tool '" +:+ toolName +:+ "' not found on server '"
                                   +:+ n +:+ "'"))
           end, s')) as Hrun.
  { unfold getTool. unfold mbind at 1, M_bind at 1. rewrite (getClient_present n c s Hget).
    msimpl. rewrite Hlist. cbn.
    by destruct (List.find _ ts). }
  rewrite Hrun. clear Hrun. split; [|split].
  - intros tool. split.
    + intros [= Hfind].
      destruct (List.find _ ts) as [tool'|] eqn:Ef; [|done]. injection Hfind as ->.
      clear Hlist. induction ts as [|t0 ts IH]; [done|]. cbn in Ef.
      case_bool_decide as Hname.
      * injection Ef as ->. by exists [], ts.
      * destruct (IH Ef) as (pre & post & -> & Hn & Hpre).
        exists (t0 :: pre), post. split; [done|]. split; [done|]. by constructor.
    + intros (pre & post & -> & Hname & Hpre). f_equal.
      clear Hlist. induction Hpre as [|t0 pre Ht0 Hpre IH]; cbn.
      * by rewrite bool_decide_eq_true_2.
      * by rewrite bool_decide_eq_false_2.
  - intros Hnone. f_equal. clear Hlist.
    induction Hnone as [|t0 ts' Ht0 Hnone IH]; cbn; [done|].
    by rewrite bool_decide_eq_false_2.
  - done.
Qed.

(** X16: [callTool] is routed to the session registered under the given
    name and to no other: the one outside call made carries that session,
    the tool name and the arguments as given, and its payload, or the
    error it throws, is handed back as it is. *)
Theorem callTool_routes_to_registered_session n c toolName args s :
  JsMap.wf (clients s) →
  (n, c) ∈ clients s →
  ∃ s', callTool host n toolName args s
        = (match client_callTool host c toolName args with
           | inl e => Throw e
           | inr payload => Normal payload
           end, s')
        ∧ trace s' = trace s ++ [EvCallTool c toolName args]
        ∧ clients s' = clients s.
Proof.
  intros Hwf Hin. pose proof (wf_get _ _ _ Hwf Hin) as Hget.
  unfold callTool. unfold mbind at 1, M_bind at 1. rewrite (getClient_present n c s Hget).
  msimpl. exists (mkState (clients s) (blueprintId s) (trace s ++ [EvCallTool c toolName args])).
  split; [|done].
  by destruct (client_callTool host c toolName args).
Qed.

End Routing.

(** ** Reading never writes *)

Section ReadOnly.
Context (host : Host).

Lemma readOnly_ret {A} (a : A) : readOnly (mret a).
Proof. by intros s. Qed.

Lemma readOnly_throw {A} e : readOnly (throw (A := A) e).
Proof. by intros s. Qed.

Lemma readOnly_emit e : readOnly (emit e).
Proof. by intros s. Qed.

Lemma readOnly_getClients : readOnly getClients.
Proof. by intros s. Qed.

Lemma readOnly_bind {A B} (m : M A) (k : A → M B) :
  readOnly m → (∀ a, readOnly (k a)) → readOnly (m ≫= k).
Proof.
  intros Hm Hk s. unfold mbind, M_bind. specialize (Hm s).
  destruct (m s) as [[a|e] s1]; cbn in *; [|done].
  destruct (Hk a s1) as [-> ->]. done.
Qed.

Lemma readOnly_try_catch {A} (m : M A) (h : JsError → M A) :
  readOnly m → (∀ e, readOnly (h e)) → readOnly (try_catch m h).
Proof.
  intros Hm Hh s. unfold try_catch. specialize (Hm s).
  destruct (m s) as [[a|e] s1]; cbn in *; [done|].
  destruct (Hh e s1) as [-> ->]. done.
Qed.

Lemma readOnly_liftThrow {A} (r : JsError + A) : readOnly (liftThrow r).
Proof. destruct r; [apply readOnly_throw|apply readOnly_ret]. Qed.

Lemma readOnly_await {A} e (r : JsError + A) : readOnly (await e r).
Proof.
  apply readOnly_bind; [apply readOnly_emit|]. intros _.
  destruct r; [apply readOnly_throw|apply readOnly_ret].
Qed.

Lemma readOnly_getClient n : readOnly (getClient n).
Proof.
  apply readOnly_bind; [apply readOnly_getClients|]. intros cl.
  destruct (JsMap.get n cl); [apply readOnly_ret|apply readOnly_throw].
Qed.

Lemma readOnly_listTools n : readOnly (listTools host n).
Proof.
  apply readOnly_bind; [apply readOnly_getClient|]. intros c. apply readOnly_await.
Qed.

Lemma readOnly_searchServers searchIn servers regex results :
  readOnly (searchServers host searchIn servers regex results).
Proof.
  revert regex results. induction servers as [|n rest IH]; intros regex results.
  - apply readOnly_ret.
  - cbn [searchServers]. apply readOnly_bind.
    + apply readOnly_try_catch; [|intros e; apply readOnly_ret].
      apply readOnly_bind; [apply readOnly_listTools|]. intros resp.
      destruct (tools resp) as [ts|]; [|apply readOnly_ret].
      destruct (filterTools searchIn regex ts) as [matched regex'].
      destruct (0 <? _)%nat; apply readOnly_ret.
    + intros [results' regex']. apply IH.
Qed.

(** X6: listing, looking up, searching and invoking never write to the
    manager: whatever the servers answer, and whether the call returns or
    throws, the registry and the blueprint id afterwards are the ones
    before. *)
Theorem read_operations_keep_registry :
  (∀ n, readOnly (listTools host n))
  ∧ (∀ n toolName, readOnly (getTool host n toolName))
  ∧ (∀ n, readOnly (listToolsInServer host n))
  ∧ (∀ n pattern searchIn caseSensitive,
       readOnly (findToolsInServer host n pattern searchIn caseSensitive))
  ∧ (∀ pattern searchIn caseSensitive, readOnly (findTools host pattern searchIn caseSensitive))
  ∧ (∀ n toolName args, readOnly (callTool host n toolName args))
  ∧ readOnly listServers.
Proof.
  split; [apply readOnly_listTools|].
  split.
  { intros n toolName. apply readOnly_bind; [apply readOnly_getClient|]. intros c.
    apply readOnly_bind; [apply readOnly_await|]. intros resp.
    destruct (tools resp) as [ts|]; [|apply readOnly_throw].
    destruct (List.find _ ts); [apply readOnly_ret|apply readOnly_throw]. }
  split.
  { intros n. apply readOnly_bind; [apply readOnly_getClient|]. intros c.
    apply readOnly_bind; [apply readOnly_await|]. intros resp.
    destruct (tools resp); apply readOnly_ret. }
  split.
  { intros n pattern searchIn caseSensitive.
    apply readOnly_bind; [apply readOnly_getClient|]. intros c.
    apply readOnly_bind; [apply readOnly_await|]. intros resp.
    destruct (tools resp) as [ts|]; [|apply readOnly_ret].
    apply readOnly_bind; [apply readOnly_liftThrow|]. intros regex. apply readOnly_ret. }
  split.
  { intros pattern searchIn caseSensitive. unfold findTools.
    apply readOnly_bind.
    { apply readOnly_bind; [apply readOnly_getClients|]. intros cl. apply readOnly_ret. }
    intros servers. destruct (length servers =? 0)%nat; [apply readOnly_ret|].
    apply readOnly_bind.
    { apply readOnly_try_catch; [apply readOnly_liftThrow|]. intros e. apply readOnly_throw. }
    intros regex. apply readOnly_searchServers. }
  split.
  { intros n toolName args. apply readOnly_bind; [apply readOnly_getClient|]. intros c.
    apply readOnly_await. }
  apply readOnly_bind; [apply readOnly_getClients|]. intros cl. apply readOnly_ret.
Qed.

End ReadOnly.

(** ** The single-server search and its stateful regex *)

Section StatefulSearch.
Context (host : Host).

Lemma regex_test_search r subject : reSearch (regex_test r subject).2 = reSearch r.
Proof.
  unfold regex_test. destruct (reGlobal r); [destruct (reSearch r subject (lastIndex r))|
                                             destruct (reSearch r subject 0)]; done.
Qed.

Lemma regex_test_sound r subject :
  searchMonotone (reSearch r) →
  (regex_test r subject).1 = true → found (reSearch r) subject = true.
Proof.
  intros Hmono. unfold regex_test, found. destruct (reGlobal r).
  - destruct (reSearch r subject (lastIndex r)) as [e|] eqn:E; [|done].
    destruct (Hmono _ _ _ E) as [e' ->]. done.
  - by destruct (reSearch r subject 0).
Qed.

(** from [lastIndex = 0] a test is the stateless one, and a failed test
    leaves [lastIndex] at 0 *)
Lemma regex_test_fresh r subject :
  lastIndex r = 0 →
  (regex_test r subject).1 = found (reSearch r) subject
  ∧ ((regex_test r subject).1 = false → lastIndex (regex_test r subject).2 = 0).
Proof.
  intros H0. unfold regex_test, found. rewrite H0.
  destruct (reGlobal r); by destruct (reSearch r subject 0).
Qed.

Lemma matchTool_halves searchIn tool r :
  matchTool searchIn tool r =
    let '(nameMatch, r1) := guardedTest (namesSearched searchIn) (Tool.name tool) r in
    let '(descriptionMatch, r2) :=
      guardedTest (descriptionsSearched searchIn) (Tool.description tool) r1 in
    (nameMatch || descriptionMatch, r2).
Proof.
  unfold matchTool, guardedTest.
  by destruct searchIn, (truthyStr (Tool.name tool)), (truthyStr (Tool.description tool)).
Qed.

Lemma toolMatches_halves searchIn search tool :
  toolMatches searchIn search tool =
    guardedFound (namesSearched searchIn) (Tool.name tool) search
    || guardedFound (descriptionsSearched searchIn) (Tool.description tool) search.
Proof.
  unfold toolMatches, guardedFound.
  by destruct searchIn, (truthyStr (Tool.name tool)), (truthyStr (Tool.description tool)).
Qed.

Lemma guardedTest_search allowed field r :
  reSearch (guardedTest allowed field r).2 = reSearch r.
Proof.
  unfold guardedTest. destruct allowed, (truthyStr field); try done.
  apply regex_test_search.
Qed.

Lemma guardedTest_sound allowed field r :
  searchMonotone (reSearch r) →
  (guardedTest allowed field r).1 = true → guardedFound allowed field (reSearch r) = true.
Proof.
  unfold guardedTest, guardedFound. intros Hmono.
  destruct allowed, (truthyStr field); try done. by apply regex_test_sound.
Qed.

Lemma guardedTest_fresh allowed field r :
  lastIndex r = 0 →
  (guardedTest allowed field r).1 = guardedFound allowed field (reSearch r)
  ∧ ((guardedTest allowed field r).1 = false → lastIndex (guardedTest allowed field r).2 = 0).
Proof.
  unfold guardedTest, guardedFound. intros H0.
  destruct allowed, (truthyStr field); try done. by apply regex_test_fresh.
Qed.

Lemma matchTool_search searchIn tool r :
  reSearch (matchTool searchIn tool r).2 = reSearch r.
Proof.
  rewrite matchTool_halves.
  pose proof (guardedTest_search (namesSearched searchIn) (Tool.name tool) r) as H1.
  destruct (guardedTest (namesSearched searchIn) (Tool.name tool) r) as [a r1].
  pose proof (guardedTest_search (descriptionsSearched searchIn) (Tool.description tool) r1)
    as H2.
  destruct (guardedTest (descriptionsSearched searchIn) (Tool.description tool) r1) as [b r2].
  cbn in *. congruence.
Qed.

Lemma matchTool_sound searchIn tool r :
  searchMonotone (reSearch r) →
  (matchTool searchIn tool r).1 = true → toolMatches searchIn (reSearch r) tool = true.
Proof.
  intros Hmono. rewrite matchTool_halves, toolMatches_halves.
  pose proof (guardedTest_search (namesSearched searchIn) (Tool.name tool) r) as H1.
  pose proof (guardedTest_sound (namesSearched searchIn) (Tool.name tool) r Hmono) as S1.
  destruct (guardedTest (namesSearched searchIn) (Tool.name tool) r) as [a r1].
  cbn in H1, S1.
  assert (searchMonotone (reSearch r1)) as Hmono1 by (by rewrite H1).
  pose proof (guardedTest_sound (descriptionsSearched searchIn) (Tool.description tool)
                r1 Hmono1) as S2.
  destruct (guardedTest (descriptionsSearched searchIn) (Tool.description tool) r1) as [b r2].
  cbn in *. rewrite H1 in S2. intros Hab.
  apply orb_true_iff in Hab as [->| ->].
  - by rewrite S1.
  - by rewrite S2, orb_true_r.
Qed.

Lemma matchTool_fresh searchIn tool r :
  lastIndex r = 0 →
  (matchTool searchIn tool r).1 = toolMatches searchIn (reSearch r) tool
  ∧ ((matchTool searchIn tool r).1 = false → lastIndex (matchTool searchIn tool r).2 = 0).
Proof.
  intros H0. rewrite matchTool_halves, toolMatches_halves.
  pose proof (guardedTest_search (namesSearched searchIn) (Tool.name tool) r) as H1.
  destruct (guardedTest_fresh (namesSearched searchIn) (Tool.name tool) r H0) as [E1 Z1].
  destruct (guardedTest (namesSearched searchIn) (Tool.name tool) r) as [a r1].
  cbn in H1, E1, Z1. rewrite <- E1. destruct a; cbn.
  - destruct (guardedTest _ _ r1). split; done.
  - destruct (guardedTest_fresh (descriptionsSearched searchIn) (Tool.description tool) r1
                (Z1 eq_refl)) as [E2 Z2].
    destruct (guardedTest (descriptionsSearched searchIn) (Tool.description tool) r1)
      as [b r2].
    cbn in *. by rewrite <- H1.
Qed.

Lemma filterTools_search searchIn r ts :
  reSearch (filterTools searchIn r ts).2 = reSearch r.
Proof.
  revert r. induction ts as [|t ts IH]; intros r; [done|].
  cbn [filterTools].
  pose proof (matchTool_search searchIn t r) as H1.
  destruct (matchTool searchIn t r) as [keep r1].
  specialize (IH r1). destruct (filterTools searchIn r1 ts) as [kept r2].
  cbn in *. congruence.
Qed.

Lemma filterTools_sublist searchIn r ts :
  searchMonotone (reSearch r) →
  (filterTools searchIn r ts).1 `sublist_of` List.filter (toolMatches searchIn (reSearch r)) ts.
Proof.
  revert r. induction ts as [|t ts IH]; intros r Hmono; [done|].
  cbn [filterTools List.filter].
  pose proof (matchTool_search searchIn t r) as H1.
  pose proof (matchTool_sound searchIn t r Hmono) as S1.
  destruct (matchTool searchIn t r) as [keep r1]. cbn in H1, S1.
  assert (searchMonotone (reSearch r1)) as Hmono1 by (by rewrite H1).
  specialize (IH r1 Hmono1). rewrite H1 in IH.
  destruct (filterTools searchIn r1 ts) as [kept r2]. cbn in *.
  destruct keep.
  - rewrite (S1 eq_refl). by apply sublist_skip.
  - destruct (toolMatches searchIn (reSearch r) t); [by apply sublist_cons|done].
Qed.

Lemma filterTools_first searchIn r ts :
  lastIndex r = 0 →
  match List.filter (toolMatches searchIn (reSearch r)) ts with
  | [] => (filterTools searchIn r ts).1 = []
  | t :: _ => ∃ rest, (filterTools searchIn r ts).1 = t :: rest
  end.
Proof.
  revert r. induction ts as [|t ts IH]; intros r H0; [done|].
  cbn [filterTools List.filter].
  pose proof (matchTool_search searchIn t r) as H1.
  destruct (matchTool_fresh searchIn t r H0) as [E Z].
  destruct (matchTool searchIn t r) as [keep r1]. cbn in H1, E, Z.
  rewrite <- E. destruct keep.
  - destruct (filterTools searchIn r1 ts) as [kept r2]. by exists kept.
  - specialize (IH r1 (Z eq_refl)). rewrite H1 in IH.
    by destruct (filterTools searchIn r1 ts) as [kept r2].
Qed.

Lemma findToolsInServer_listed n c ts pattern searchIn caseSensitive search s :
  JsMap.get n (clients s) = Some c →
  client_listTools host c = inr (mkToolsResponse (Some ts)) →
  RegExp_compile host pattern (negb (default false caseSensitive)) = inr search →
  findToolsInServer host n pattern searchIn caseSensitive s
  = (Normal (summarize <$>
               (filterTools (default SearchBoth searchIn) (mkRegExp search true 0) ts).1),
     mkState (clients s) (blueprintId s) (trace s ++ [EvListTools c])).
Proof.
  intros Hget Hlist Hc. unfold findToolsInServer, getClient, newRegExp. msimpl.
  rewrite Hget, Hlist. cbn.
  destruct caseSensitive as [[|]|]; cbn in *; by rewrite Hc.
Qed.

(** X7: the single-server search reports no false match.  On a registered
    server with an array listing and a pattern that compiles, its result
    is the projection of a subsequence of the descriptors that the
    stateless rule of [findTools] selects, in listing order. *)
Theorem findToolsInServer_no_false_match n c ts pattern searchIn caseSensitive search s :
  JsMap.get n (clients s) = Some c →
  client_listTools host c = inr (mkToolsResponse (Some ts)) →
  RegExp_compile host pattern (negb (default false caseSensitive)) = inr search →
  searchMonotone search →
  ∃ kept s',
    findToolsInServer host n pattern searchIn caseSensitive s
    = (Normal (summarize <$> kept), s')
    ∧ kept `sublist_of` List.filter (toolMatches (default SearchBoth searchIn) search) ts
    ∧ trace s' = trace s ++ [EvListTools c].
Proof.
  intros Hget Hlist Hc Hmono.
  rewrite (findToolsInServer_listed n c ts pattern searchIn caseSensitive search s Hget Hlist Hc).
  eexists _, _. split; [reflexivity|]. split; [|done].
  by apply (filterTools_sublist _ (mkRegExp search true 0)).
Qed.

(** X8: the single-server search never misses the first match.  Its result
    is empty exactly when no descriptor of the listing matches, and
    otherwise starts with the projection of the first matching
    descriptor; when exactly one descriptor matches, the result is that
    descriptor alone. *)
Theorem findToolsInServer_first_match n c ts pattern searchIn caseSensitive search s :
  JsMap.get n (clients s) = Some c →
  client_listTools host c = inr (mkToolsResponse (Some ts)) →
  RegExp_compile host pattern (negb (default false caseSensitive)) = inr search →
  let expected := List.filter (toolMatches (default SearchBoth searchIn) search) ts in
  let result := (findToolsInServer host n pattern searchIn caseSensitive s).1 in
  (expected = [] ↔ result = Normal [])
  ∧ (∀ t rest, expected = t :: rest → ∃ more, result = Normal (summarize t :: more))
  ∧ (searchMonotone search → ∀ t, expected = [t] → result = Normal [summarize t]).
Proof.
  intros Hget Hlist Hc expected result. subst result.
  rewrite (findToolsInServer_listed n c ts pattern searchIn caseSensitive search s Hget Hlist Hc).
  cbn [fst].
  pose proof (filterTools_first (default SearchBoth searchIn) (mkRegExp search true 0) ts
                eq_refl) as Hfirst.
  cbn [reSearch] in Hfirst. fold expected in Hfirst.
  split; [|split].
  - split.
    + intros E. rewrite E in Hfirst. by rewrite Hfirst.
    + intros [= E]. destruct expected as [|t rest]; [done|].
      destruct Hfirst as [more Hm]. rewrite Hm in E. done.
  - intros t rest E. rewrite E in Hfirst. destruct Hfirst as [more ->]. by exists (summarize <$> more).
  - intros Hmono t E. rewrite E in Hfirst. destruct Hfirst as [more Hm].
    pose proof (filterTools_sublist (default SearchBoth searchIn) (mkRegExp search true 0) ts
                  Hmono) as Hsub.
    cbn [reSearch] in Hsub. fold expected in Hsub. rewrite E, Hm in Hsub.
    apply sublist_length in Hsub. cbn in Hsub.
    destruct more; [by rewrite Hm|cbn in Hsub; lia].
Qed.

End StatefulSearch.

(** ** Transports *)

Section Transports.
Context (host : Host).

(** X14: the environment handed to a spawned process is the host
    environment with the variables of [params.env] assigned on top: every
    overlay variable other than [__proto__] has the overlay's value, and a
    variable the overlay does not define keeps the host's value or stays
    undefined.  An overlay variable named [__proto__] is dropped (the
    assignment of a string to that key of a plain object does nothing),
    unless the host environment has a variable of that name, which it
    then overrides. *)
Theorem stdio_environment_overlay n p cmd overlay :
  transportTypeOf p = stdio →
  truthyStr (command p) = Some cmd →
  env p = Some overlay →
  ∃ environ,
    makeTransport host n p = inr (StdioClientTransport cmd (default [] (args p)) environ)
    ∧ (∀ k, k ≠ "__proto__" ∨ is_Some (process_env host !! "__proto__") →
         environ !! k = match overlay !! k with
                        | Some v => Some v
                        | None => process_env host !! k
                        end)
    ∧ (process_env host !! "__proto__" = None → environ !! "__proto__" = None).
Proof.
  intros Ht Hcmd Henv. unfold makeTransport. rewrite Ht, Hcmd, Henv.
  eexists. split; [reflexivity|].
  exact (assign_primitives_own (JsObject.spread (process_env host)) overlay).
Qed.

End Transports.

(** ** Fetching and loading a blueprint *)

Section Loading.
Context (host : Host).

Lemma fetchConfigFromApi_run id s :
  fetchConfigFromApi host id s =
    let s1 := mkState (clients s) (blueprintId s) (trace s ++ [EvFetch (blueprintUrl id)]) in
    let failed cause :=
      (Throw (Error ("Failed to fetch configuration for blueprint '" +:+ id +:+ "': "
                     +:+ cause)),
       mkState (clients s) (blueprintId s)
         (trace s ++ [EvFetch (blueprintUrl id);
                      EvConsoleError ("Failed to fetch configuration from API: " +:+ cause)]))
    in
    match fetch host (blueprintUrl id) with
    | inl err => failed (message err)
    | inr response =>
        if ok response then
          match json response with
          | inl err => failed (message err)
          | inr None => failed (message (nullPropertyError "mcpServers"))
          | inr (Some config) =>
              match mcpServers config with
              | None => failed "Invalid configuration format: missing mcpServers"
              | Some _ => (Normal config, s1)
              end
          end
        else failed ("HTTP error! status: " +:+ pretty (status response))
    end.
Proof.
  unfold fetchConfigFromApi. fold (blueprintUrl id). msimpl.
  destruct (fetch host (blueprintUrl id)) as [err|response]; cbn.
  { by rewrite <- app_assoc. }
  destruct (ok response); cbn; [|by rewrite <- app_assoc].
  destruct (json response) as [err|[config|]]; cbn; [by rewrite <- app_assoc| |].
  - destruct (mcpServers config); cbn; [done|by rewrite <- app_assoc].
  - by rewrite <- app_assoc.
Qed.

(** X9: fetching a configuration makes exactly one request, to the
    address built from the blueprint id.  It returns the parsed
    configuration as it is exactly when the request resolves with an ok
    status and the body parses to a value that has an [mcpServers]
    property.  Every other outcome is logged once and thrown as one error
    that names the blueprint and carries the cause: the message of the
    failed request, the HTTP status (the body is then not read), the
    message of the parse failure, the type error of reading a property of
    a body that is [null], or the missing property. *)
Theorem fetchConfigFromApi_outcomes id s :
  let s1 := mkState (clients s) (blueprintId s) (trace s ++ [EvFetch (blueprintUrl id)]) in
  (∀ config s',
     fetchConfigFromApi host id s = (Normal config, s') ↔
     (∃ response, fetch host (blueprintUrl id) = inr response
                  ∧ ok response = true
                  ∧ json response = inr (Some config)
                  ∧ is_Some (mcpServers config))
     ∧ s' = s1)
  ∧ (∀ e s',
       fetchConfigFromApi host id s = (Throw e, s') →
       ∃ cause,
         e = Error ("Failed to fetch configuration for blueprint '" +:+ id +:+ "': " +:+ cause)
         ∧ s' = mkState (clients s) (blueprintId s)
                  (trace s ++ [EvFetch (blueprintUrl id);
                               EvConsoleError ("Failed to fetch configuration from API: "
                                               +:+ cause)])
         ∧ ((∃ err, fetch host (blueprintUrl id) = inl err ∧ cause = message err)
            ∨ (∃ response, fetch host (blueprintUrl id) = inr response
                           ∧ ok response = false
                           ∧ cause = "HTTP error! status: " +:+ pretty (status response))
            ∨ (∃ response err, fetch host (blueprintUrl id) = inr response
                               ∧ ok response = true
                               ∧ json response = inl err ∧ cause = message err)
            ∨ (∃ response, fetch host (blueprintUrl id) = inr response
                           ∧ ok response = true
                           ∧ json response = inr None
                           ∧ cause = message (nullPropertyError "mcpServers"))
            ∨ (∃ response config, fetch host (blueprintUrl id) = inr response
                                  ∧ ok response = true
                                  ∧ json response = inr (Some config)
                                  ∧ mcpServers config = None
                                  ∧ cause = "Invalid configuration format: missing mcpServers"))).
Proof.
  intros s1. rewrite fetchConfigFromApi_run. cbn zeta. fold s1.
  destruct (fetch host (blueprintUrl id)) as [err|response] eqn:Ef.
  { split.
    - intros config s'. split; [done|]. by intros [(r & [=] & _) _].
    - intros e s' [= <- <-]. exists (message err). split; [done|]. split; [done|].
      left. by exists err. }
  destruct (ok response) eqn:Eok.
  2:{ split.
      - intros config s'. split; [done|].
        intros [(r & [= <-] & Hok & _) _]. congruence.
      - intros e s' [= <- <-]. eexists. split; [done|]. split; [done|].
        right; left. by exists response. }
  destruct (json response) as [err|[config0|]] eqn:Ej.
  { split.
    - intros config s'. split; [done|].
      intros [(r & [= <-] & _ & Hj & _) _]. congruence.
    - intros e s' [= <- <-]. exists (message err). split; [done|]. split; [done|].
      right; right; left. by exists response, err. }
  2:{ split.
      - intros config s'. split; [done|].
        intros [(r & [= <-] & _ & Hj & _) _]. congruence.
      - intros e s' [= <- <-]. eexists. split; [done|]. split; [done|].
        right; right; right; left. by exists response. }
  destruct (mcpServers config0) as [entries|] eqn:Em.
  - split.
    + intros config s'. split.
      * intros [= <- <-]. split; [|done]. exists response. by rewrite Em.
      * intros [(r & [= <-] & _ & Hj & _) ->]. congruence.
    + by intros e s' [=].
  - split.
    + intros config s'. split; [done|].
      intros [(r & [= <-] & _ & Hj & Hm) _].
      assert (config = config0) as -> by congruence. rewrite Em in Hm. by destruct Hm.
    + intros e s' [= <- <-]. eexists. split; [done|]. split; [done|].
      right; right; right; right. by exists response, config0.
Qed.

Lemma afterAttempt_connectable n p s :
  JsMap.has n (clients s) = false →
  connectable host n p = true →
  JsMap.has n (clients (afterAttempt host n p s)) = true.
Proof.
  intros Hn. unfold connectable, afterAttempt.
  rewrite (connectToServer_absent host n p s Hn).
  destruct (makeTransport host n p) as [e|t]; [done|].
  destruct (client_connect host (freshClient n) t) as [e|c]; [done|].
  intros _. cbn. unfold JsMap.has. by rewrite get_set_eq.
Qed.

Lemma afterAttempt_names n p s m :
  JsMap.has m (clients (afterAttempt host n p s)) = true →
  JsMap.has m (clients s) = true ∨ m = n.
Proof.
  unfold afterAttempt. destruct (JsMap.has n (clients s)) eqn:Hn.
  - rewrite connectToServer_present by done. cbn. by left.
  - rewrite (connectToServer_absent host n p s Hn).
    destruct (makeTransport host n p) as [e|t]; [by left|].
    destruct (client_connect host (freshClient n) t) as [e|c]; [by left|].
    cbn. destruct (decide (m = n)) as [->|Hne]; [by right|].
    unfold JsMap.has. rewrite get_set_ne by done. by left.
Qed.

Lemma has_preserved_connectEntries entries s n :
  JsMap.has n (clients s) = true →
  JsMap.has n (clients (connectEntries host entries s).2) = true.
Proof.
  intros H. apply has_get in H as [c Hc]. apply has_get. exists c.
  by apply connectEntries_preserves.
Qed.

Lemma connectEntries_connectable entries s n p :
  (n, p) ∈ entries →
  connectable host n p = true →
  JsMap.has n (clients (connectEntries host entries s).2) = true.
Proof.
  revert s. induction entries as [|[m q] rest IH]; intros s Hin Hc.
  - by apply elem_of_nil in Hin.
  - rewrite connectEntries_cons. apply elem_of_cons in Hin as [Heq|Hin].
    + injection Heq as <- <-. destruct (JsMap.has n (clients s)) eqn:Hn.
      * by apply has_preserved_connectEntries.
      * by apply has_preserved_connectEntries, afterAttempt_connectable.
    + destruct (JsMap.has m (clients s)); by apply IH.
Qed.

Lemma connectEntries_names entries s m :
  JsMap.has m (clients (connectEntries host entries s).2) = true →
  JsMap.has m (clients s) = true ∨ m ∈ entries.*1.
Proof.
  revert s. induction entries as [|[n q] rest IH]; intros s H; [by left|].
  rewrite connectEntries_cons in H. cbn [fmap list_fmap fst].
  destruct (JsMap.has n (clients s)) eqn:Hn.
  - destruct (IH _ H) as [?|?]; [by left|right; by apply list_elem_of_further].
  - destruct (IH _ H) as [H'|?]; [|right; by apply list_elem_of_further].
    destruct (afterAttempt_names _ _ _ _ H') as [?| ->]; [by left|].
    right. apply list_elem_of_here.
Qed.

(** X10: when the configuration of a blueprint has been fetched,
    [loadFromBlueprint] returns normally and leaves registered every
    listed server that can be connected (its parameters yield a transport
    on which the session opens), together with every session that was
    registered before; it registers no name from elsewhere. *)
Theorem loadFromBlueprint_registers_connectable bid id config entries s s1 :
  truthyStr (orElse bid (blueprintId s)) = Some id →
  fetchConfigFromApi host id s = (Normal config, s1) →
  mcpServers config = Some entries →
  ∃ s', loadFromBlueprint host bid s = (Normal tt, s')
        ∧ (∀ n p, (n, p) ∈ entries → connectable host n p = true →
             JsMap.has n (clients s') = true)
        ∧ (∀ n c, JsMap.get n (clients s) = Some c → JsMap.get n (clients s') = Some c)
        ∧ (∀ m, JsMap.has m (clients s') = true →
             JsMap.has m (clients s) = true ∨ m ∈ entries.*1).
Proof.
  intros Hid Hf Hm.
  assert (clients s1 = clients s) as Hcl.
  { rewrite fetchConfigFromApi_run in Hf. cbn zeta in Hf.
    destruct (fetch host (blueprintUrl id)) as [?|r]; [done|].
    destruct (ok r); [|done]. destruct (json r) as [?|[cfg|]]; [done| |done].
    destruct (mcpServers cfg); [|done]. by injection Hf as _ <-. }
  unfold loadFromBlueprint. msimpl. rewrite Hid, Hf, Hm.
  destruct entries as [|entry rest].
  - eexists. split; [reflexivity|]. cbn [clients]. rewrite Hcl.
    split; [intros n p Hin; by apply elem_of_nil in Hin|]. split; [done|]. by left.
  - destruct (connectEntries_normal host (entry :: rest) s1) as [s2 Hs2].
    exists s2. split; [done|].
    assert (s2 = (connectEntries host (entry :: rest) s1).2) as -> by (by rewrite Hs2).
    split; [intros n p; apply connectEntries_connectable|].
    split.
    + intros n c Hn. apply connectEntries_preserves. by rewrite Hcl.
    + intros m H. rewrite <- Hcl. by apply connectEntries_names.
Qed.

End Loading.

(** ** Which blueprint is loaded *)

Section BlueprintId.
Context (host : Host).

Lemma truthyStr_truthy o x : truthyStr o = Some x → truthyStr (Some x) = Some x.
Proof. destruct o as [[|a rest]|]; cbn; [done| |done]. by intros [= <-]. Qed.

(** a computation that keeps the blueprint id and only adds to the trace *)
Lemma connectToServer_id_trace n p s :
  blueprintId (connectToServer host n p s).2 = blueprintId s
  ∧ ∃ rest, trace (connectToServer host n p s).2 = trace s ++ rest.
Proof.
  destruct (JsMap.has n (clients s)) eqn:Hn.
  - rewrite connectToServer_present by done. split; [done|]. exists []. by rewrite app_nil_r.
  - rewrite (connectToServer_absent host n p s Hn).
    destruct (makeTransport host n p) as [e|t].
    { split; [done|]. exists []. by rewrite app_nil_r. }
    destruct (client_connect host (freshClient n) t) as [e|c]; cbn.
    + split; [done|]. eexists. by rewrite <- app_assoc.
    + split; [done|]. by eexists.
Qed.

Lemma afterAttempt_id_trace n p s :
  blueprintId (afterAttempt host n p s) = blueprintId s
  ∧ ∃ rest, trace (afterAttempt host n p s) = trace s ++ rest.
Proof.
  destruct (connectToServer_id_trace n p s) as [Hid [rest Htr]].
  unfold afterAttempt. destruct (connectToServer host n p s) as [[[]|e] s1]; cbn in *.
  - split; [done|]. by exists rest.
  - split; [done|]. eexists. by rewrite Htr, <- app_assoc.
Qed.

Lemma connectEntries_id_trace entries s :
  blueprintId (connectEntries host entries s).2 = blueprintId s
  ∧ ∃ rest, trace (connectEntries host entries s).2 = trace s ++ rest.
Proof.
  revert s. induction entries as [|[n p] entries IH]; intros s.
  - split; [done|]. exists []. by rewrite app_nil_r.
  - rewrite connectEntries_cons. destruct (JsMap.has n (clients s)); [apply IH|].
    destruct (afterAttempt_id_trace n p s) as [Hid [rest Htr]].
    destruct (IH (afterAttempt host n p s)) as [Hid' [rest' Htr']].
    split; [congruence|]. exists (rest ++ rest'). by rewrite Htr', Htr, app_assoc.
Qed.

Lemma loadFromBlueprint_with_id bid id s :
  truthyStr (orElse bid (blueprintId s)) = Some id →
  blueprintId (loadFromBlueprint host bid s).2 = blueprintId s
  ∧ ∃ rest, trace (loadFromBlueprint host bid s).2
            = trace s ++ EvFetch (blueprintUrl id) :: rest.
Proof.
  intros Hid. unfold loadFromBlueprint. msimpl. rewrite Hid.
  rewrite fetchConfigFromApi_run. cbn zeta.
  destruct (fetch host (blueprintUrl id)) as [err|r]; [split; [done|by eexists]|].
  destruct (ok r); [|split; [done|by eexists]].
  destruct (json r) as [err|[config|]]; [split; [done|by eexists]| |split; [done|by eexists]].
  destruct (mcpServers config) as [entries|] eqn:Em; [|split; [done|by eexists]].
  rewrite Em. destruct entries as [|entry rest].
  - cbn. split; [done|]. eexists. by rewrite <- app_assoc.
  - set (s1 := mkState _ _ _).
    destruct (connectEntries_id_trace (entry :: rest) s1) as [Hi [more Htr]].
    split; [done|]. exists more. rewrite Htr. subst s1. cbn. by rewrite <- app_assoc.
Qed.

Lemma loadFromBlueprint_blueprintId bid s :
  blueprintId (loadFromBlueprint host bid s).2 = blueprintId s.
Proof.
  destruct (truthyStr (orElse bid (blueprintId s))) as [id|] eqn:E.
  - exact (proj1 (loadFromBlueprint_with_id bid id s E)).
  - unfold loadFromBlueprint. msimpl. by rewrite E.
Qed.

Lemma loadFromBlueprint_throw_clients bid s e s1 :
  loadFromBlueprint host bid s = (Throw e, s1) → clients s1 = clients s.
Proof.
  unfold loadFromBlueprint. msimpl.
  destruct (truthyStr (orElse bid (blueprintId s))) as [id|]; [|by intros [= _ <-]].
  rewrite fetchConfigFromApi_run. cbn zeta.
  destruct (fetch host (blueprintUrl id)) as [err|r]; [by intros [= _ <-]|].
  destruct (ok r); [|by intros [= _ <-]].
  destruct (json r) as [err|[config|]]; [by intros [= _ <-]| |by intros [= _ <-]].
  destruct (mcpServers config) as [entries|] eqn:Em; [|by intros [= _ <-]].
  rewrite Em. destruct entries as [|entry rest]; [done|].
  set (s0 := mkState _ _ _).
  destruct (connectEntries_normal host (entry :: rest) s0) as [s2 ->]. done.
Qed.

(** X11: [loadFromBlueprint] loads the blueprint named by its argument
    when one is given, and the blueprint the manager was created with
    otherwise: its first outside call is the request for that blueprint.
    With neither, it throws before any outside call.  It never stores the
    argument: the manager's own blueprint id is unchanged in every case. *)
Theorem loadFromBlueprint_id_choice bid s :
  (∀ given, truthyStr bid = Some given →
     ∃ rest, trace (loadFromBlueprint host bid s).2
             = trace s ++ EvFetch (blueprintUrl given) :: rest)
  ∧ (∀ own, truthyStr bid = None → truthyStr (blueprintId s) = Some own →
       ∃ rest, trace (loadFromBlueprint host bid s).2
               = trace s ++ EvFetch (blueprintUrl own) :: rest)
  ∧ (truthyStr bid = None → truthyStr (blueprintId s) = None →
       loadFromBlueprint host bid s = (Throw (Error "Blueprint ID not specified."), s))
  ∧ blueprintId (loadFromBlueprint host bid s).2 = blueprintId s.
Proof.
  split; [|split; [|split]].
  - intros given Hg. apply loadFromBlueprint_with_id.
    unfold orElse. rewrite Hg. by apply (truthyStr_truthy bid).
  - intros own Hb Ho. apply loadFromBlueprint_with_id. unfold orElse. by rewrite Hb.
  - intros Hb Ho. unfold loadFromBlueprint, orElse. msimpl. by rewrite Hb, Ho.
  - apply loadFromBlueprint_blueprintId.
Qed.

Lemma findIndex_Some p l i :
  findIndex p l = Some i ↔
  ∃ pre x post, l = pre ++ x :: post ∧ length pre = i ∧ p x = true
                ∧ Forall (λ y, p y = false) pre.
Proof.
  revert i. induction l as [|y l IH]; intros i; cbn.
  - split; [done|]. intros (pre & x & post & H & _). by destruct pre.
  - destruct (p y) eqn:Ey.
    + split.
      * intros [= <-]. by exists [], y, l.
      * intros (pre & x & post & H & Hlen & Hx & Hpre).
        destruct pre as [|y' pre]; [by subst|].
        injection H as <- _. apply Forall_cons in Hpre as [Hy _]. congruence.
    + destruct (findIndex p l) as [j|] eqn:Ej; cbn.
      * split.
        -- intros [= <-]. destruct (proj1 (IH j) eq_refl) as (pre & x & post & -> & Hl & Hx & Hp).
           exists (y :: pre), x, post. cbn. repeat split; try done; [by rewrite Hl|by constructor].
        -- intros (pre & x & post & H & Hlen & Hx & Hpre).
           destruct pre as [|y' pre]; [cbn in H; injection H as <- _; congruence|].
           injection H as <- ->. apply Forall_cons in Hpre as [_ Hpre].
           cbn in Hlen. destruct i as [|i]; [done|]. f_equal.
           assert (Some j = Some i) as [= ->]; [|done].
           apply IH. exists pre, x, post. repeat split; try done. lia.
      * split; [done|].
        intros (pre & x & post & H & Hlen & Hx & Hpre).
        destruct pre as [|y' pre]; [cbn in H; injection H as <- _; congruence|].
        injection H as <- ->. apply Forall_cons in Hpre as [_ Hpre].
        assert (None = Some (length pre)) as Habs; [|done].
        apply IH. by exists pre, x, post.
Qed.

Lemma first_occurrence_unique (x : string) pre post pre' post' :
  pre ++ x :: post = pre' ++ x :: post' → x ∉ pre → x ∉ pre' →
  pre = pre' ∧ post = post'.
Proof.
  revert pre'. induction pre as [|a pre IH]; intros pre' H Hn Hn'.
  - destruct pre' as [|b pre']; cbn in H.
    + by injection H as ->.
    + injection H as <- _. exfalso. apply Hn', list_elem_of_here.
  - destruct pre' as [|b pre']; cbn in H.
    + injection H as <- _. exfalso. apply Hn, list_elem_of_here.
    + injection H as <- H. destruct (IH pre' H) as [-> ->]; [| |done].
      * intros Hin. by apply Hn, list_elem_of_further.
      * intros Hin. by apply Hn', list_elem_of_further.
Qed.

(** X12: the blueprint id found at start-up is the environment variable
    [MCP_BLUEPRINT_ID] when it is set to a non-empty value, whatever the
    command line says.  Otherwise it is the argument that follows the
    first [--blueprint-id] on the command line; there is none when the
    option does not occur or when its first occurrence is the last
    argument. *)
Theorem findBlueprintId_sources argv :
  (∀ v, truthyStr (process_env host !! "MCP_BLUEPRINT_ID") = Some v →
     findBlueprintId host argv = Some v)
  ∧ (truthyStr (process_env host !! "MCP_BLUEPRINT_ID") = None →
       ∀ v, findBlueprintId host argv = Some v ↔
            ∃ pre post, argv = pre ++ "--blueprint-id" :: v :: post
                        ∧ "--blueprint-id" ∉ pre).
Proof.
  unfold findBlueprintId. split; [by intros v ->|]. intros -> v.
  destruct (findIndex (String.eqb "--blueprint-id") argv) as [i|] eqn:Ei.
  - apply findIndex_Some in Ei as (pre & x & post & -> & Hlen & Hx & Hpre).
    apply String.eqb_eq in Hx as <-.
    assert ("--blueprint-id" ∉ pre) as Hnotin.
    { intros Hin. rewrite Forall_forall in Hpre. specialize (Hpre _ Hin).
      by rewrite String.eqb_refl in Hpre. }
    rewrite length_app. subst i.
    destruct post as [|w post]; cbn [length].
    + replace (length pre <? length pre + 1 - 1)%nat with false
        by (symmetry; apply Nat.ltb_ge; lia).
      split; [done|]. intros (pre' & post' & H & Hn').
      by destruct (first_occurrence_unique _ _ _ _ _ H Hnotin Hn') as [_ ?].
    + replace (length pre <? length pre + S (S (length post)) - 1)%nat with true
        by (symmetry; apply Nat.ltb_lt; lia).
      rewrite lookup_app_r by lia.
      replace (length pre + 1 - length pre) with 1 by lia. cbn.
      split.
      * intros [= ->]. by exists pre, post.
      * intros (pre' & post' & H & Hn').
        destruct (first_occurrence_unique _ _ _ _ _ H Hnotin Hn') as [_ Hpost].
        by injection Hpost as ->.
  - split; [done|]. intros (pre & post & -> & Hn). exfalso.
    assert (is_Some (findIndex (String.eqb "--blueprint-id")
                       (pre ++ "--blueprint-id" :: v :: post))) as [i Hi]; [|congruence].
    clear Ei Hn. induction pre as [|a pre IH]; cbn [findIndex app].
    { rewrite String.eqb_refl. by eexists. }
    destruct (String.eqb "--blueprint-id" a) eqn:Ea; [by eexists|].
    destruct IH as [j ->]. by eexists.
Qed.

(** X13: constructing a manager never fails and starts from an empty
    registry.  Its blueprint id is the one given in the options when
    there is one, and the one found at start-up otherwise.  Without
    [autoLoad], or without any blueprint id, nothing is called and nothing
    is registered; with both, a load that throws is caught: the failure
    is logged and the registry is left empty. *)
Theorem newManager_outcomes argv optBlueprintId autoLoad :
  let bid := orElse optBlueprintId (findBlueprintId host argv) in
  blueprintId (newManager host argv optBlueprintId autoLoad) = bid
  ∧ (∀ given, truthyStr optBlueprintId = Some given → bid = Some given)
  ∧ (truthyStr optBlueprintId = None → bid = findBlueprintId host argv)
  ∧ (default false autoLoad = false ∨ truthyStr bid = None →
       newManager host argv optBlueprintId autoLoad = mkState [] bid [])
  ∧ (∀ e s1, default false autoLoad = true → truthyStr bid ≠ None →
       loadFromBlueprint host bid (mkState [] bid []) = (Throw e, s1) →
       newManager host argv optBlueprintId autoLoad
       = mkState [] bid
           (trace s1 ++ [EvConsoleError ("Failed to load servers from blueprint: "
                                         +:+ message e)])).
Proof.
  intros bid. unfold newManager. fold bid. split; [|split; [|split; [|split]]].
  - destruct (default false autoLoad && truthy bid); [|done].
    unfold try_catch.
    pose proof (loadFromBlueprint_blueprintId bid (mkState [] bid [])) as Hid.
    by destruct (loadFromBlueprint host bid (mkState [] bid [])) as [[[]|e] s1].
  - intros given Hg. subst bid. unfold orElse. by rewrite Hg.
  - intros Hn. subst bid. unfold orElse. by rewrite Hn.
  - intros [-> | Hn]; [done|]. unfold truthy. rewrite Hn. by rewrite andb_false_r.
  - intros e s1 -> Hb Hload. unfold truthy.
    destruct (truthyStr bid) as [id|] eqn:E; [|done]. cbn [andb].
    unfold try_catch. rewrite Hload. msimpl.
    pose proof (loadFromBlueprint_blueprintId bid (mkState [] bid [])) as Hid.
    rewrite Hload in Hid. cbn in Hid.
    by rewrite (loadFromBlueprint_throw_clients _ _ _ _ Hload), Hid.
Qed.

End BlueprintId.

(** ** Listings that fail or have an unexpected shape *)

Section DegenerateListings.
Context (host : Host).

(** X17: on a registered server, an error thrown by the listing call
    reaches the caller of every single-server operation as it is, not
    wrapped, after that one call.  A listing whose [tools] is not an array
    makes [getTool] fail with the no-tools error, and makes the summary
    and the single-server search return the empty sequence, for every
    pattern, compilable or not. *)
Theorem single_server_degenerate_listings n c s :
  JsMap.get n (clients s) = Some c →
  let s' := mkState (clients s) (blueprintId s) (trace s ++ [EvListTools c]) in
  (∀ e, client_listTools host c = inl e →
     listTools host n s = (Throw e, s')
     ∧ (∀ toolName, getTool host n toolName s = (Throw e, s'))
     ∧ listToolsInServer host n s = (Throw e, s')
     ∧ (∀ pattern searchIn caseSensitive,
          findToolsInServer host n pattern searchIn caseSensitive s = (Throw e, s')))
  ∧ (client_listTools host c = inr (mkToolsResponse None) →
       (∀ toolName,
          getTool host n toolName s
          = (Throw (Error ("No tools found on server '" +:+ n +:+ "'")), s'))
       ∧ listToolsInServer host n s = (Normal [], s')
       ∧ (∀ pattern searchIn caseSensitive,
            findToolsInServer host n pattern searchIn caseSensitive s = (Normal [], s'))).
Proof.
  intros Hget s'.
  assert (∀ toolName, getTool host n toolName s =
            match client_listTools host c with
            | inl e => (Throw e, s')
            | inr resp =>
                match tools resp with
                | None => (Throw (Error ("No tools found on server '" +:+ n +:+ "'")), s')
                | Some ts =>
                    match List.find (λ t, bool_decide (Tool.name t = Some toolName)) ts with
                    | None => (Throw (Error ("Tool '" +:+ toolName +:+ "' not found on server '"
                                             +:+ n +:+ "'")), s')
                    | Some tool => (Normal tool, s')
                    end
                end
            end) as HgetTool.
  { intros toolName. unfold getTool. unfold mbind at 1, M_bind at 1.
    rewrite (getClient_present n c s Hget). msimpl.
    destruct (client_listTools host c) as [e|resp]; [done|]. cbn.
    destruct (tools resp) as [ts|]; [|done]. by destruct (List.find _ ts). }
  assert (∀ pattern searchIn caseSensitive,
            match client_listTools host c with
            | inl e =>
                findToolsInServer host n pattern searchIn caseSensitive s = (Throw e, s')
            | inr resp =>
                tools resp = None →
                findToolsInServer host n pattern searchIn caseSensitive s = (Normal [], s')
            end) as Hfind.
  { intros pattern searchIn caseSensitive.
    destruct (client_listTools host c) as [e|resp] eqn:El; [|intros Hn];
      unfold findToolsInServer; unfold mbind at 1, M_bind at 1;
      rewrite (getClient_present n c s Hget); msimpl; rewrite El; [done|].
    cbn. by rewrite Hn. }
  rewrite (listTools_present host n c s Hget), (listToolsInServer_present host n c s Hget).
  fold s'. split.
  - intros e He. rewrite He. split; [done|].
    split; [intros toolName; by rewrite HgetTool, He|]. split; [done|].
    intros pattern searchIn caseSensitive.
    specialize (Hfind pattern searchIn caseSensitive). by rewrite He in Hfind.
  - intros Hshape. split.
    + intros toolName. by rewrite HgetTool, Hshape.
    + rewrite Hshape. split; [done|].
      intros pattern searchIn caseSensitive.
      specialize (Hfind pattern searchIn caseSensitive). rewrite Hshape in Hfind.
      by apply Hfind.
Qed.

End DegenerateListings.

(** ** The fragment engine finds from the start what it finds later *)

Lemma searchFrom_monotone lit subject skip pos e :
  Fragment.searchFrom lit subject skip pos = Some e →
  ∃ e', Fragment.searchFrom lit subject 0 pos = Some e'.
Proof.
  revert skip pos. induction subject as [|ch rest IH]; intros skip pos.
  - destruct skip; [by eexists|done].
  - destruct skip as [|k]; [by eexists|]. cbn [Fragment.searchFrom].
    intros H. destruct (IH _ _ H) as [e' He'].
    destruct (String.prefix lit (String ch rest)); by eexists.
Qed.

Lemma searchOf_read_monotone : searchMonotone (Fragment.searchOf "read" true).
Proof.
  intros subject i e H.
  change (Fragment.searchOf "read" true)
    with (λ subject start, Fragment.searchFrom "read" (Fragment.lower subject) start 0) in *.
  cbn beta in *. by eapply searchFrom_monotone.
Qed.

(** ** Witnesses of the further properties *)

Lemma connect_success_appends_witness :
  ∃ s', connectToServer Demo.host "web" Demo.webParams Demo.fsOnly = (Normal tt, s')
        ∧ clients s' = clients Demo.fsOnly ++ [("web", Demo.webClient)]
        ∧ listServers s' = (Normal (JsMap.keys (clients Demo.fsOnly) ++ ["web"]), s')
        ∧ getClient "web" s' = (Normal Demo.webClient, s')
        ∧ (∀ m, m ≠ "web" → JsMap.get m (clients s') = JsMap.get m (clients Demo.fsOnly))
        ∧ trace s' = trace Demo.fsOnly ++ [EvConnect (freshClient "web") Demo.webTransport].
Proof.
  apply (connect_success_appends Demo.host "web" Demo.webParams Demo.webTransport
           Demo.webClient Demo.fsOnly); reflexivity.
Defined.

Lemma disconnect_success_removes_witness :
  ∃ s' pre post,
    disconnectServer Demo.host "files" Demo.fsThenStuckThenFiles = (Normal tt, s')
    ∧ clients Demo.fsThenStuckThenFiles = pre ++ ("files", Demo.client "files" "npx") :: post
    ∧ clients s' = pre ++ post
    ∧ trace s' = trace Demo.fsThenStuckThenFiles ++ [EvClose (Demo.client "files" "npx")]
    ∧ ("files" ∉ JsMap.keys (clients s'))
    ∧ getClient "files" s' = (Throw (NotConnected "files"), s')
    ∧ (∀ m, m ≠ "files" →
         JsMap.get m (clients s') = JsMap.get m (clients Demo.fsThenStuckThenFiles)).
Proof.
  apply (disconnect_success_removes Demo.host "files" (Demo.client "files" "npx")
           Demo.fsThenStuckThenFiles).
  - apply (bool_decide_unpack _). vm_compute. exact I.
  - reflexivity.
  - reflexivity.
Defined.

Lemma unregistered_name_is_NotConnected_witness :
  listTools Demo.host "nope" Demo.fsOnly = (Throw (NotConnected "nope"), Demo.fsOnly)
  ∧ disconnectServer Demo.host "nope" Demo.fsOnly = (Throw (NotConnected "nope"), Demo.fsOnly).
Proof.
  destruct (unregistered_name_is_NotConnected Demo.host "nope" Demo.fsOnly eq_refl)
    as (Hlist & _ & _ & _ & _ & Hdisc).
  exact (conj Hlist Hdisc).
Defined.

Lemma connect_then_disconnect_witness :
  ∃ s1 s2,
    connectToServer Demo.host "web" Demo.webParams Demo.fsOnly = (Normal tt, s1)
    ∧ disconnectServer Demo.host "web" s1 = (Normal tt, s2)
    ∧ clients s2 = clients Demo.fsOnly
    ∧ blueprintId s2 = blueprintId Demo.fsOnly
    ∧ trace s2 = trace Demo.fsOnly
        ++ [EvConnect (freshClient "web") Demo.webTransport; EvClose Demo.webClient].
Proof.
  apply (connect_then_disconnect Demo.host "web" Demo.webParams Demo.webTransport
           Demo.webClient Demo.fsOnly); reflexivity.
Defined.

Lemma connect_twice_witness :
  ∃ s1,
    connectToServer Demo.host "web" Demo.webParams Demo.fsOnly = (Normal tt, s1)
    ∧ connectToServer Demo.host "web" (Demo.stdioParams "npx") s1
      = (Throw (AlreadyConnected "web"), s1)
    ∧ JsMap.get "web" (clients s1) = Some Demo.webClient.
Proof.
  apply (connect_twice Demo.host "web" Demo.webParams (Demo.stdioParams "npx")
           Demo.webTransport Demo.webClient Demo.fsOnly); reflexivity.
Defined.

Lemma getTool_first_exact_match_witness :
  getTool Demo.host "fs" "readDir" Demo.fsOnly
  = (Normal Demo.readDir,
     mkState (clients Demo.fsOnly) None [EvListTools (Demo.client "fs" "npx")])
  ∧ getTool Demo.host "fs" "missingTool" Demo.fsOnly
    = (Throw (Error "Tool 'missingTool' not found on server 'fs'"),
       mkState (clients Demo.fsOnly) None [EvListTools (Demo.client "fs" "npx")]).
Proof.
  split.
  - apply (getTool_first_exact_match Demo.host "fs" (Demo.client "fs" "npx") "readDir"
             [Demo.readFile; Demo.readDir; Demo.writeFile] Demo.fsOnly eq_refl eq_refl).
    exists [Demo.readFile], [Demo.writeFile]. split; [reflexivity|]. split; [reflexivity|].
    constructor; [discriminate|constructor].
  - apply (getTool_first_exact_match Demo.host "fs" (Demo.client "fs" "npx") "missingTool"
             [Demo.readFile; Demo.readDir; Demo.writeFile] Demo.fsOnly eq_refl eq_refl).
    repeat (constructor; [discriminate|]). constructor.
Defined.

Lemma callTool_routes_to_registered_session_witness :
  ∃ s', callTool Demo.host "fs" "readFile" "{}" Demo.stuckThenFs
        = (match client_callTool Demo.host (Demo.client "fs" "npx") "readFile" "{}" with
           | inl e => Throw e
           | inr payload => Normal payload
           end, s')
        ∧ trace s' = trace Demo.stuckThenFs
            ++ [EvCallTool (Demo.client "fs" "npx") "readFile" "{}"]
        ∧ clients s' = clients Demo.stuckThenFs.
Proof.
  apply (callTool_routes_to_registered_session Demo.host "fs" (Demo.client "fs" "npx")
           "readFile" "{}" Demo.stuckThenFs).
  - apply (bool_decide_unpack _). vm_compute. exact I.
  - apply list_elem_of_further, list_elem_of_here.
Defined.

Lemma findToolsInServer_no_false_match_witness :
  ∃ kept s',
    findToolsInServer Demo.host "fs" "read" (Some SearchName) None Demo.fsOnly
    = (Normal (summarize <$> kept), s')
    ∧ kept `sublist_of`
        List.filter (toolMatches (default SearchBoth (Some SearchName))
                       (Fragment.searchOf "read" true))
          [Demo.readFile; Demo.readDir; Demo.writeFile]
    ∧ trace s' = trace Demo.fsOnly ++ [EvListTools (Demo.client "fs" "npx")].
Proof.
  apply (findToolsInServer_no_false_match Demo.host "fs" (Demo.client "fs" "npx")
           [Demo.readFile; Demo.readDir; Demo.writeFile] "read" (Some SearchName) None
           (Fragment.searchOf "read" true) Demo.fsOnly eq_refl eq_refl eq_refl).
  exact searchOf_read_monotone.
Defined.

Lemma findToolsInServer_first_match_witness :
  ∃ more,
    (findToolsInServer Demo.host "fs" "read" (Some SearchName) None Demo.fsOnly).1
    = Normal (summarize Demo.readFile :: more).
Proof.
  apply (findToolsInServer_first_match Demo.host "fs" (Demo.client "fs" "npx")
           [Demo.readFile; Demo.readDir; Demo.writeFile] "read" (Some SearchName) None
           (Fragment.searchOf "read" true) Demo.fsOnly eq_refl eq_refl eq_refl)
    with (rest := [Demo.readDir]).
  reflexivity.
Defined.

Lemma loadFromBlueprint_registers_connectable_witness :
  ∃ s', loadFromBlueprint Demo.host (Some "bp1") Demo.fsOnly = (Normal tt, s')
        ∧ JsMap.has "web" (clients s') = true
        ∧ JsMap.get "fs" (clients s') = Some (Demo.client "fs" "npx").
Proof.
  destruct (loadFromBlueprint_registers_connectable Demo.host (Some "bp1") "bp1"
              Demo.bp1Config Demo.bp1Entries Demo.fsOnly
              (mkState (clients Demo.fsOnly) None [EvFetch (blueprintUrl "bp1")])
              eq_refl eq_refl eq_refl)
    as (s' & Hrun & Hconn & Hkeep & _).
  exists s'. split; [exact Hrun|]. split.
  - apply (Hconn "web" Demo.webParams); [|reflexivity].
    apply list_elem_of_further, list_elem_of_further, list_elem_of_here.
  - apply Hkeep. reflexivity.
Defined.

Lemma stdio_environment_overlay_witness :
  ∃ environ,
    makeTransport Demo.host "tool" Demo.overlayParams
    = inr (StdioClientTransport "npx" [] environ)
    ∧ environ !! "PATH" = Some "/opt/bin"
    ∧ environ !! "__proto__" = None.
Proof.
  destruct (stdio_environment_overlay Demo.host "tool" Demo.overlayParams "npx"
              (<["__proto__" := "polluted"]> {[ "PATH" := "/opt/bin" ]})
              eq_refl eq_refl eq_refl)
    as (environ & Hrun & Hk & Hproto).
  exists environ. split; [exact Hrun|]. split.
  - etrans; [apply Hk; left; discriminate|]. vm_compute. reflexivity.
  - apply Hproto. vm_compute. reflexivity.
Defined.

(** A body that parses to [null]: reading [mcpServers] of it throws, and
    the type error is wrapped like every other failure. *)
Example fetchConfigFromApi_null_body :
  (fetchConfigFromApi Demo.host "null" Demo.fsOnly).1
  = Throw (Error ("Failed to fetch configuration for blueprint 'null': "
                  +:+ "Cannot read properties of null (reading 'mcpServers')")).
Proof. vm_compute. reflexivity. Qed.

Lemma single_server_degenerate_listings_witness :
  findToolsInServer Demo.host "odd" "(" None None (Demo.stateOf [("odd", Demo.client "odd" "npx")])
  = (Normal [],
     mkState [("odd", Demo.client "odd" "npx")] None [EvListTools (Demo.client "odd" "npx")]).
Proof.
  destruct (single_server_degenerate_listings Demo.host "odd" (Demo.client "odd" "npx")
              (Demo.stateOf [("odd", Demo.client "odd" "npx")]) eq_refl)
    as [_ Hshape].
  destruct (Hshape eq_refl) as (_ & _ & Hfind).
  exact (Hfind "(" None None).
Defined.
